(** * VOICE_Bot: the session protocol of the Choice and Voice chat backends

    A shallow embedding of the two backends of the repository
    (choice-bot-backend and voice-bot-backend): name detection, the
    tenant-partitioned knowledge store, query processing, and the
    WebSocket handler loop with its session registry.

    Conventions.
    - A Python [str] is a [string]; a character is a code point below 256.
    - External collaborators (Chroma, the text splitter, the language model,
      Whisper, gTTS, base64, the transport) are the fields of type classes:
      every theorem holds for all of their behaviours.
    - A Python exception is a value of [exn]; code that may raise returns a
      [result]. *)

From stdpp Require Import base option gmap strings list.
From Stdlib Require Import Ascii String ZArith Lia.

Open Scope string_scope.
Open Scope list_scope.

(** ** Text primitives used by the source *)

Module Text.

Definition code (c : ascii) : nat := nat_of_ascii c.

Definition between (lo hi : nat) (c : ascii) : bool :=
  (lo <=? code c)%nat && (code c <=? hi)%nat.

Definition is_upper (c : ascii) : bool := between 65 90 c.
Definition is_lower (c : ascii) : bool := between 97 122 c.

(** The class [[a-zA-Z]].  Among the code points below 256 it holds the
    same characters with and without [re.IGNORECASE]; the four
    characters the flag adds to it (U+0130, U+0131, U+017F, U+212A) lie
    beyond them, outside the strings modelled here. *)
Definition is_alpha (c : ascii) : bool := is_upper c || is_lower c.

(** [\s] of a [str] pattern and [str.isspace]: tab to carriage return,
    the four separators 28..31, space, NEL and the no-break space. *)
Definition is_space (c : ascii) : bool :=
  between 9 13 c || between 28 32 c
  || (code c =? 133)%nat || (code c =? 160)%nat.

Definition to_lower (c : ascii) : ascii :=
  if is_upper c then ascii_of_nat (code c + 32) else c.

Definition to_upper (c : ascii) : ascii :=
  if is_lower c then ascii_of_nat (code c - 32) else c.

Fixpoint map_string (f : ascii -> ascii) (s : string) : string :=
  match s with
  | EmptyString => EmptyString
  | String c s' => String (f c) (map_string f s')
  end.

Fixpoint take_while (p : ascii -> bool) (s : string) : string :=
  match s with
  | EmptyString => EmptyString
  | String c s' => if p c then String c (take_while p s') else EmptyString
  end.

Fixpoint drop_while (p : ascii -> bool) (s : string) : string :=
  match s with
  | EmptyString => EmptyString
  | String c s' => if p c then drop_while p s' else s
  end.

Fixpoint rev_string (acc s : string) : string :=
  match s with
  | EmptyString => acc
  | String c s' => rev_string (String c acc) s'
  end.

(** [str.strip()]: whitespace removed at both ends. *)
Definition strip (s : string) : string :=
  rev_string "" (drop_while is_space (rev_string "" (drop_while is_space s))).

(** [str.capitalize()] on a token of ASCII letters: first character
    upper-cased, the others lower-cased. *)
Definition capitalize (s : string) : string :=
  match s with
  | EmptyString => EmptyString
  | String c s' => String (to_upper c) (map_string to_lower s')
  end.

(** [sep.join(parts)]. *)
Fixpoint join (sep : string) (parts : list string) : string :=
  match parts with
  | [] => ""
  | [p] => p
  | p :: rest => p +:+ sep +:+ join sep rest
  end.

Definition nonempty (s : string) : bool :=
  match s with EmptyString => false | String _ _ => true end.

(** [needle in hay]. *)
Fixpoint contains (needle hay : string) : bool :=
  if String.prefix needle hay then true
  else match hay with
       | EmptyString => false
       | String _ hay' => contains needle hay'
       end.

End Text.

(** ** Name detection: [detect_user_name] of app/main.py (both backends) *)

Module NameDetection.
Import Text.

(** The literal part of a pattern, matched at the head of the text under
    [re.IGNORECASE]; returns the text after it. *)
Fixpoint match_literal (lit text : string) : option string :=
  match lit, text with
  | EmptyString, _ => Some text
  | String p lit', String c text' =>
      if Ascii.eqb (to_lower p) (to_lower c)
      then match_literal lit' text' else None
  | String _ _, EmptyString => None
  end.

(** One attempt of [lit\s+([a-zA-Z]+)] anchored at the head of the text;
    the result is group 1.  Whitespace and letters are disjoint classes,
    so the greedy runs never need to give characters back. *)
Definition match_here (lit text : string) : option string :=
  match match_literal lit text with
  | None => None
  | Some rest =>
      if nonempty (take_while is_space rest) then
        let name := take_while is_alpha (drop_while is_space rest) in
        if nonempty name then Some name else None
      else None
  end.

(** [re.search]: the leftmost position at which the pattern matches. *)
Fixpoint re_search (lit text : string) : option string :=
  match match_here lit text with
  | Some g => Some g
  | None =>
      match text with
      | EmptyString => None
      | String _ text' => re_search lit text'
      end
  end.

(** The literal heads of the three patterns, in source order. *)
Definition patterns : list string := ["my name is"; "i am"; "i'm"].

(** The [for] loop of the source.  Its body ends with [return None] at
    the indentation of the [if], so the first iteration always returns
    and the remaining patterns are never consulted. *)
Definition loop_body_returns (patterns : list string) (text : string)
  : option string :=
  match patterns with
  | [] => None
  | pattern :: _ =>
      match re_search pattern text with
      | Some g => Some (capitalize g)
      | None => None
      end
  end.

Definition detect_user_name (text : string) : option string :=
  loop_body_returns patterns text.

(** The behaviour the specification describes: every pattern is tried in
    order and the first that matches decides. *)
Fixpoint first_match (patterns : list string) (text : string)
  : option string :=
  match patterns with
  | [] => None
  | pattern :: rest =>
      match re_search pattern text with
      | Some g => Some (capitalize g)
      | None => first_match rest text
      end
  end.

Definition detect_user_name_spec (text : string) : option string :=
  first_match patterns text.

End NameDetection.

(** ** Exceptions and a small state-and-exception monad *)

Module Py.

Inductive exn_kind :=
| WebSocketDisconnect | ValueError | KeyError | TypeError
| AttributeError | UnboundLocalError | OtherError.

Record exn := Exn { kind : exn_kind; message : string }.

Inductive result (A : Type) :=
| Ok (a : A)
| Raise (e : exn).
Arguments Ok {A} a.
Arguments Raise {A} e.

(** A computation over a mutable world of type [S] that may raise; the
    world at the point of the [raise] is kept, as in Python. *)
Definition M (S A : Type) : Type := S -> result A * S.

Definition ret {S A} (a : A) : M S A := fun w => (Ok a, w).

Definition bind {S A B} (m : M S A) (k : A -> M S B) : M S B :=
  fun w =>
    match m w with
    | (Ok a, w') => k a w'
    | (Raise e, w') => (Raise e, w')
    end.

Definition raise {S A} (e : exn) : M S A := fun w => (Raise e, w).

Definition lift {S A} (r : result A) : M S A := fun w => (r, w).

Definition modify {S} (f : S -> S) : M S unit := fun w => (Ok tt, f w).

(** [try: m except Exception: h]. *)
Definition try_except {S A} (m : M S A) (h : exn -> M S A) : M S A :=
  fun w =>
    match m w with
    | (Ok a, w') => (Ok a, w')
    | (Raise e, w') => h e w'
    end.

Declare Scope py_scope.
Delimit Scope py_scope with py.
Notation "'let*' x ':=' m 'in' k" := (bind m (fun x => k))
  (at level 10, x pattern, m at level 100, k at level 200) : py_scope.

(** JSON values as [receive_json] delivers them inside an object.  Arrays
    and nested objects are one opaque case: the handlers only ever test
    them for equality with a string, hash them, or pass them on. *)
Inductive jval :=
| JNull
| JBool (b : bool)
| JNum (n : Z)
| JStr (s : string)
| JCompound.

Definition is_str (v : jval) (s : string) : bool :=
  match v with JStr t => bool_decide (t = s) | _ => false end.

(** [d[key]]. *)
Definition getitem {S} (d : gmap string jval) (key : string) : M S jval :=
  match d !! key with
  | Some v => ret v
  | None => raise (Exn KeyError key)
  end.

End Py.

(** ** The knowledge store: core/vector_store.py

    The module is among the sources of the Choice backend; the Voice
    backend imports [core.vector_store] under the same names and is read
    against the same module. *)

Module VectorStore.
Import Py.

Record Document := { page_content : string; source : string }.

(** The persistent Chroma client: collection name to stored chunks. *)
Abbreviation chroma_db := (gmap string (list Document)).

(** What Chroma and the text splitter do is outside the repository. *)
Class Chroma := {
  (** [RecursiveCharacterTextSplitter(1000, 200).split_documents]. *)
  split_documents : list Document -> list Document;
  (** [Chroma.from_documents] on a collection commits or raises. *)
  from_documents_ok : string -> list Document -> bool;
  (** The [Chroma(...)] constructor on a collection (absent or with its
      chunks) returns or raises. *)
  open_ok : string -> option (list Document) -> bool;
  (** The ranked search of one collection's chunks for a query. *)
  similarity_search : list Document -> string -> nat -> result (list Document)
}.

Section Store.
Context `{Chroma}.

(** [f"client_{client_id}"]. *)
Definition collection_name (client_id : string) : string :=
  "client_" +:+ client_id.

(** [load_and_embed_documents], from the point where [documents] holds
    what the loaders read from the source directory.  A commit that
    raises leaves the store as it was. *)
Definition load_and_embed_documents
    (client_id : string) (documents : list Document) (db : chroma_db)
  : bool * chroma_db :=
  match documents with
  | [] => (false, db)
  | _ :: _ =>
      let splits := split_documents documents in
      let name := collection_name client_id in
      if from_documents_ok name splits
      then (true, <[name := default [] (db !! name) ++ splits]> db)
      else (false, db)
  end.

Record Retriever := { r_collection : string; r_k : nat }.

(** [get_vector_retriever(client_id, k=4)]. *)
Definition get_vector_retriever
    (db : chroma_db) (client_id : string) (k : nat) : option Retriever :=
  let name := collection_name client_id in
  if open_ok name (db !! name)
  then Some {| r_collection := name; r_k := k |}
  else None.

(** [retriever.get_relevant_documents(query)]. *)
Definition get_relevant_documents
    (db : chroma_db) (r : Retriever) (query : string)
  : result (list Document) :=
  similarity_search (default [] (db !! r_collection r)) query (r_k r).

End Store.

End VectorStore.

(** ** Sessions and chain construction, common to both backends *)

Module Session.
Import Py VectorStore.

Inductive Role := user | assistant.

(** What [create_rag_chain] returns: the chain keeps the retriever it was
    built around. *)
Record Chain := { chain_retriever : Retriever }.

(** The [session_data] dictionary of a connection. *)
Record session := {
  user_name : option string;
  language : jval;
  chat_history : list (Role * string);
  rag_chain : Chain
}.

Definition set_user_name (n : option string) (s : session) : session :=
  {| user_name := n; language := language s;
     chat_history := chat_history s; rag_chain := rag_chain s |}.

Definition set_language (l : jval) (s : session) : session :=
  {| user_name := user_name s; language := l;
     chat_history := chat_history s; rag_chain := rag_chain s |}.

Definition set_chat_history (h : list (Role * string)) (s : session)
  : session :=
  {| user_name := user_name s; language := language s;
     chat_history := h; rag_chain := rag_chain s |}.

(** [l[-n:]]. *)
Definition last_n {A} (n : nat) (l : list A) : list A :=
  drop (List.length l - n) l.

(** The three history statements that end a turn. *)
Definition update_chat_history
    (query_text response_text : string) (s : session) : session :=
  let h1 := chat_history s ++ [(user, query_text)] in
  let h2 := h1 ++ [(assistant, response_text)] in
  set_chat_history (last_n 10 h2) s.

(** The [ChatGoogleGenerativeAI(...)] constructor is external. *)
Class ChatModel := { llm_client : result unit }.

Section Create.
Context `{Chroma} `{ChatModel}.

Definition not_ingested (client_id : string) : exn :=
  Exn ValueError
    ("Could not initialize retriever for client " +:+ client_id
     +:+ ". Has data been ingested?").

(** [create_rag_chain(client_id)] of core/rag_service.py. *)
Definition create_rag_chain (db : chroma_db) (client_id : string)
  : result Chain :=
  match get_vector_retriever db client_id 4 with
  | None => Raise (not_ingested client_id)
  | Some retriever =>
      match llm_client with
      | Raise e => Raise e
      | Ok _ => Ok {| chain_retriever := retriever |}
      end
  end.
End Create.

Definition nl : string := String (ascii_of_nat 10) "".

(** [format_docs]: the page contents joined by a blank line. *)
Definition format_docs (docs : list Document) : string :=
  Text.join (nl +:+ nl) (map page_content docs).

End Session.

(** ** Query processing of the Choice backend: core/rag_service.py *)

Module ChoiceRag.
Import Py VectorStore Session.

(** The dictionary [process_query] hands to [rag_chain.invoke]. *)
Record chain_input := {
  ci_question : string;
  ci_chat_history : list (Role * string);
  ci_user_name : option string;
  ci_language_instruction : string
}.

(** What reaches the prompt template.  Every slot but [context] is a
    [RunnablePassthrough()], which hands on the whole chain input. *)
Record prompt_inputs := {
  pi_context : string;
  pi_question : chain_input;
  pi_chat_history : chain_input;
  pi_language_instruction : chain_input;
  pi_user_name : chain_input
}.

Class LangChain := {
  (** The search text the retriever derives from the chain input. *)
  retriever_input : chain_input -> result string;
  (** Prompt formatting, the model call and the output parser. *)
  llm_invoke : prompt_inputs -> result string
}.

(** [language_map.get(session_data.get("language", "en"), "English")];
    a list or an object is unhashable. *)
Definition language_instruction (lang : jval) : result string :=
  match lang with
  | JCompound => Raise (Exn TypeError "unhashable type")
  | JStr code =>
      if bool_decide (code = "en") then Ok "English"
      else if bool_decide (code = "hi") then Ok "Hindi"
      else Ok "English"
  | _ => Ok "English"
  end.

Section Chain.
Context `{Chroma} `{LangChain}.

(** [rag_chain.invoke]; the world is the list of calls made to the
    generation backend. *)
Definition rag_chain_invoke
    (db : chroma_db) (chain : Chain) (ci : chain_input)
  : M (list prompt_inputs) string :=
  (let* q := lift (retriever_input ci) in
   let* docs := lift (get_relevant_documents db (chain_retriever chain) q) in
   let inputs :=
     {| pi_context := format_docs docs; pi_question := ci;
        pi_chat_history := ci; pi_language_instruction := ci;
        pi_user_name := ci |} in
   fun calls => (llm_invoke inputs, calls ++ [inputs]))%py.

Definition make_chain_input
    (query : string) (session_data : session) (instruction : string)
  : chain_input :=
  {| ci_question := query;
     ci_chat_history := chat_history session_data;
     ci_user_name := user_name session_data;
     ci_language_instruction := instruction |}.

Definition process_query
    (db : chroma_db) (query : string) (session_data : session)
    (client_id : string) (rag_chain : Chain)
  : M (list prompt_inputs) string :=
  (let* instruction := lift (language_instruction (language session_data)) in
   rag_chain_invoke db rag_chain
     (make_chain_input query session_data instruction))%py.
End Chain.

End ChoiceRag.

(** ** Query processing of the Voice backend: core/rag_service.py *)

Module VoiceRag.
Import Py VectorStore Session.

(** The two ways the source reads the model's answer. *)
Record GenResponse := {
  text : option string;
  candidates_content : result string
}.

Class Gemini := { generate_content_async : string -> result GenResponse }.

Definition no_documents_reply : string :=
  "I don't have any documents for this client. Please ingest documents first.".
Definition not_found_reply : string :=
  "I couldn't find relevant information in the uploaded documents.".
Definition failure_reply : string :=
  "Error: I encountered a problem while trying to generate a response.".

Section Query.
Context `{Chroma} `{Gemini}.

Definition call_gemini (full_prompt : string)
  : M (list string) GenResponse :=
  fun calls => (generate_content_async full_prompt, calls ++ [full_prompt]).

Definition full_prompt (docs : list Document) (query : string) : string :=
  "Context:" +:+ nl +:+ format_docs docs +:+ nl +:+ nl
  +:+ "Question: " +:+ query.

(** [getattr(response, "text", None) or <candidates fallback>]. *)
Definition text_out (response : GenResponse) : result string :=
  match text response with
  | Some t => if Text.nonempty t then Ok t else candidates_content response
  | None => candidates_content response
  end.

(** [process_query]; [session_data] and [rag_chain] are accepted and
    not used.  The world is the list of prompts sent to generation. *)
Definition process_query
    (db : chroma_db) (query : string) (session_data : session)
    (client_id : string) (rag_chain : Chain)
  : M (list string) string :=
  try_except
    (match get_vector_retriever db client_id 4 with
     | None => ret no_documents_reply
     | Some retriever =>
         let* docs := lift (get_relevant_documents db retriever query) in
         match docs with
         | [] => ret not_found_reply
         | _ :: _ =>
             let* response := call_gemini (full_prompt docs query) in
             lift (text_out response)
         end
     end)%py
    (fun _ => ret failure_reply).
End Query.

End VoiceRag.

(** ** The WebSocket side shared by both handlers *)

Module Wire.
Import Py Session.

(** A connection is identified by its [WebSocket] object. *)
Abbreviation conn := nat.
Abbreviation bytes := (list Byte.byte).

(** What [receive_json] meets: a JSON object, another JSON value, the
    peer's disconnect, or a frame that does not decode. *)
Inductive frame :=
| Json (data : gmap string jval)
| NotAnObject
| Disconnect
| Malformed.

(** Messages passed to [send_json].  [Status] carries its [type] field
    and the language echoed in its text; [Response] carries the text and
    the two audio fields (an absent key and [null] are both [None]). *)
Inductive out_msg :=
| Error (message : string)
| Status (type : string) (language : jval)
| Response (text : string) (audio_base64 audio_url : option string)
| UserMessage (text : string).

(** The part of the process a handler reads and writes; [P] is the type
    of a request to the generation backend. *)
Record world (P : Type) := World {
  active_sessions : gmap conn session;
  sent : list out_msg;
  generated : list P;
  close_code : option nat
}.
Arguments World {P}.
Arguments active_sessions {P}.
Arguments sent {P}.
Arguments generated {P}.
Arguments close_code {P}.

(** The transport, base64, the scratch file and Whisper are external. *)
Class Runtime := {
  (** [send_json] after the given messages: delivered or raises. *)
  send_outcome : list out_msg -> out_msg -> option exn;
  b64decode : string -> result bytes;
  b64encode : bytes -> string;
  basename : string -> string;
  (** Writing and removing [temp_audio_{id(websocket)}.wav]. *)
  write_scratch : conn -> bytes -> option exn;
  remove_scratch : conn -> option exn;
  (** The loaded Whisper model, if loading succeeded. *)
  whisper_model : option (bytes -> result string)
}.

(** How a run of [websocket_endpoint] over finitely many frames stands:
    refused at the handshake, left by an exception before the loop,
    waiting for the next message with its local state [L], or closed
    after the loop was left by an exception. *)
Inductive ending (L : Type) :=
| Rejected
| Escaped (e : exn)
| Awaiting (l : L)
| Closed (e : exn).
Arguments Rejected {L}.
Arguments Escaped {L} e.
Arguments Awaiting {L} l.
Arguments Closed {L} e.

Section Ops.
Context `{Runtime} {P : Type}.

Definition with_sessions (f : gmap conn session -> gmap conn session)
    (w : world P) : world P :=
  World (f (active_sessions w)) (sent w) (generated w) (close_code w).

Definition send_json (m : out_msg) : M (world P) unit :=
  fun w =>
    match send_outcome (sent w) m with
    | Some e => (Raise e, w)
    | None =>
        (Ok tt, World (active_sessions w) (sent w ++ [m])
                      (generated w) (close_code w))
    end.

Definition close (code : nat) : M (world P) unit :=
  modify (fun w =>
    World (active_sessions w) (sent w) (generated w) (Some code)).

(** Run a computation over the generation log inside the world. *)
Definition with_generation {A} (m : M (list P) A) : M (world P) A :=
  fun w =>
    match m (generated w) with
    | (r, calls) =>
        (r, World (active_sessions w) (sent w) calls (close_code w))
    end.

(** [session_data] is the object stored under [websocket]: a change
    to it is seen through the registry for as long as the entry is
    there. *)
Definition commit (websocket : conn) (s : session) : M (world P) unit :=
  modify (with_sessions (alter (fun _ => s) websocket)).

(** [active_sessions[websocket] = session_data]. *)
Definition register (websocket : conn) (s : session) : M (world P) unit :=
  modify (with_sessions (insert websocket s)).

(** The [finally] clause: [if websocket in active_sessions: del ...]. *)
Definition cleanup (websocket : conn) (w : world P) : world P :=
  match active_sessions w !! websocket with
  | Some _ => with_sessions (delete websocket) w
  | None => w
  end.

Definition receive_json (f : frame)
  : M (world P) (option (gmap string jval)) :=
  match f with
  | Json data => ret (Some data)
  | NotAnObject => ret None
  | Disconnect => raise (Exn WebSocketDisconnect "")
  | Malformed => raise (Exn ValueError "Expecting value")
  end.

Definition option_raise (o : option exn) : M (world P) unit :=
  match o with
  | Some e => raise e
  | None => ret tt
  end.

(** [transcribe_audio] of core/audio_service.py, on the bytes that were
    written to the scratch file. *)
Definition transcribe_audio (audio : bytes) : string :=
  match whisper_model with
  | None => "[Error: Whisper model not loaded]"
  | Some model =>
      match model audio with
      | Ok t => t
      | Raise e => "[Transcription error: " +:+ message e +:+ "]"
      end
  end.

(** [not session_data["user_name"]]. *)
Definition unset (n : option string) : bool :=
  match n with
  | None => true
  | Some s => negb (Text.nonempty s)
  end.

(** [try: while True: <body> except ...: ... finally: <cleanup>] over
    the frames that arrive: the loop ends only by an exception, and
    then the [finally] clause runs. *)
Fixpoint serve {L} (body : frame -> L -> M (world P) L)
    (websocket : conn) (frames : list frame) (l : L) (w : world P)
  : ending L * world P :=
  match frames with
  | [] => (Awaiting l, w)
  | f :: rest =>
      match body f l w with
      | (Ok l', w') => serve body websocket rest l' w'
      | (Raise e, w') => (Closed e, cleanup websocket w')
      end
  end.
End Ops.

End Wire.

(** ** The Choice handler: choice-bot-backend/app/main.py *)

Module Choice.
Import Py VectorStore Session Wire ChoiceRag NameDetection.

(** gTTS writing the response file; the result is the file's name. *)
Class Speech := { gtts_save : string -> jval -> result string }.

Abbreviation world := (Wire.world prompt_inputs).

(** The handler's variables that live across iterations of the loop:
    the session dictionary and the local [user_name], which is unbound
    until the first detection. *)
Record locals := {
  session_data : session;
  user_name_var : option (option string)
}.

Definition initial_greeting : string :=
  "Hello! My name is CHOICE, how can I assist you today?".

Section Handler.
Context `{Chroma} `{ChatModel} `{LangChain} `{Runtime} `{Speech}.
(** [active_sessions] is used by this file and declared only in the
    Voice backend's; it is the registry of the world here too. *)
Variables (db : chroma_db) (websocket : conn) (client_id : string).

(** [generate_speech_audio] of core/audio_service.py. *)
Definition generate_speech_audio (text : string) (language : jval)
  : string :=
  match gtts_save text language with
  | Ok filename => "/static_audio/" +:+ filename
  | Raise _ => ""
  end.

(** [data[key]] on what [receive_json] returned. *)
Definition subscript (data : option (gmap string jval)) (key : string)
  : M world jval :=
  match data with
  | Some d => getitem d key
  | None => raise (Exn TypeError "indices must be integers")
  end.

Definition decode_audio (v : jval) : M world bytes :=
  match v with
  | JStr s => lift (b64decode s)
  | _ => raise (Exn TypeError "argument should be a bytes-like object")
  end.

(** The statements nested under [elif data["type"] == "audio_query"]. *)
Definition audio_branch (data : option (gmap string jval)) (l : locals)
  : M world locals :=
  (let* encoded := subscript data "audio_data" in
   let* audio_data := decode_audio encoded in
   let* _ := option_raise (write_scratch websocket audio_data) in
   let query_text := transcribe_audio audio_data in
   let* _ := option_raise (remove_scratch websocket) in
   let* _ := send_json (UserMessage query_text) in
   let var :=
     if unset (user_name (session_data l))
     then Some (detect_user_name query_text)
     else user_name_var l in
   match var with
   | None => raise (Exn UnboundLocalError "user_name")
   | Some detected =>
       let s1 :=
         if unset detected then session_data l
         else set_user_name detected (session_data l) in
       let* _ := commit websocket s1 in
       let* response_text :=
         with_generation
           (process_query db query_text s1 client_id (rag_chain s1)) in
       let response_audio_url :=
         generate_speech_audio response_text (language s1) in
       let* _ :=
         send_json
           (Response response_text None (Some response_audio_url)) in
       let s2 := update_chat_history query_text response_text s1 in
       let* _ := commit websocket s2 in
       ret {| session_data := s2; user_name_var := Some detected |}
   end)%py.

(** One pass through the body of [while True]. *)
Definition iteration (f : frame) (l : locals) : M world locals :=
  (let* data := receive_json f in
   let* type := subscript data "type" in
   if is_str type "language_switch" then
     let* language := subscript data "language" in
     let s1 := set_language language (session_data l) in
     let* _ := commit websocket s1 in
     let* _ := send_json (Status " status" language) in
     ret {| session_data := s1; user_name_var := user_name_var l |}
   else if is_str type "text_query" then
     let* query_text := subscript data "text" in
     ret l
   else if is_str type "audio_query" then
     audio_branch data l
   else ret l)%py.

(** Step 3 of the endpoint: the guarded loop. *)
Definition main_loop (frames : list frame) (l : locals) (w : world)
  : ending locals * world :=
  serve iteration websocket frames l w.

Definition new_session (chain : Chain) : session :=
  {| user_name := None; language := JStr "en";
     chat_history := []; rag_chain := chain |}.

(** [websocket_endpoint] after [websocket.accept()]. *)
Definition websocket_endpoint (frames : list frame) (w : world)
  : ending locals * world :=
  match create_rag_chain db client_id with
  | Raise e =>
      match kind e with
      | ValueError =>
          match (let* _ := send_json (Error (message e)) in
                 close 1008)%py w with
          | (Ok _, w') => (Rejected, w')
          | (Raise e', w') => (Escaped e', w')
          end
      | _ => (Escaped e, w)
      end
  | Ok chain =>
      let s := new_session chain in
      let tts_path := generate_speech_audio initial_greeting (language s) in
      match (let* _ := register websocket s in
             send_json (Response initial_greeting None (Some tts_path)))%py
              w with
      | (Raise e, w') => (Escaped e, w')
      | (Ok _, w') =>
          main_loop frames {| session_data := s; user_name_var := None |} w'
      end
  end.

End Handler.

End Choice.

(** ** The Voice handler: voice-bot-backend/app/main.py *)

Module Voice.
Import Py VectorStore Session Wire VoiceRag NameDetection.

(** The two blocking helpers of core/audio_service.py: gTTS into a
    buffer (empty on failure) and the ffmpeg tempo filter. *)
Class Speech := {
  generate_gtts_bytes : string -> jval -> bytes;
  speed_up_audio_bytes : bytes -> bytes
}.

(** What the handler is prepared to get back from synthesis. *)
Inductive tts_value :=
| TtsBytes (b : bytes)
| TtsStr (s : string).

Abbreviation world := (Wire.world string).

Definition initial_greeting : string :=
  "Hello! My name is VOICE, how can I assist you today?".

Definition unsupported : out_msg := Error "Unsupported message type.".

Definition rag_failure : string :=
  "Sorry — I had an error processing your request.".

Section Handler.
Context `{Chroma} `{ChatModel} `{Gemini} `{Runtime} `{Speech}.
Variables (db : chroma_db) (websocket : conn) (client_id : string).

(** [generate_speech_audio] with its default [speed=1.2]. *)
Definition generate_speech_audio (text : string) (language : jval)
  : tts_value :=
  match generate_gtts_bytes text language with
  | [] => TtsBytes []
  | audio_bytes => TtsBytes (speed_up_audio_bytes audio_bytes)
  end.

Definition starts_with_slash (s : string) : bool :=
  match s with
  | String c _ => Ascii.eqb c "/"
  | EmptyString => false
  end.

(** The [isinstance] cascade that fills [audio_base64] and
    [audio_url]. *)
Definition audio_fields (tts_result : tts_value)
  : option string * option string :=
  match tts_result with
  | TtsBytes b => (Some (b64encode b), None)
  | TtsStr s =>
      if Text.nonempty s then
        if starts_with_slash s
        then (Some "", Some ("http://localhost:8000" +:+ s))
        else (Some "",
              Some ("http://localhost:8000/static/audio/" +:+ basename s))
      else (Some "", None)
  end.

Definition respond (text : string) (language : jval) : M world unit :=
  let '(audio_base64, audio_url) :=
    audio_fields (generate_speech_audio text language) in
  send_json (Response text audio_base64 audio_url).

(** [data.get(key)] on what [receive_json] returned. *)
Definition get_field (data : option (gmap string jval)) (key : string)
  : M world (option jval) :=
  match data with
  | Some d => ret (d !! key)
  | None => raise (Exn AttributeError "object has no attribute 'get'")
  end.

Definition subscript (data : option (gmap string jval)) (key : string)
  : M world jval :=
  match data with
  | Some d => getitem d key
  | None => raise (Exn TypeError "indices must be integers")
  end.

Definition has_type (type : option jval) (s : string) : bool :=
  match type with
  | Some v => is_str v s
  | None => false
  end.

(** [data.get("text", "").strip()]. *)
Definition text_field (data : option (gmap string jval)) : M world string :=
  (let* v := get_field data "text" in
   match v with
   | None => ret (Text.strip "")
   | Some (JStr s) => ret (Text.strip s)
   | Some _ => raise (Exn AttributeError "object has no attribute 'strip'")
   end)%py.

Definition decode_audio (v : jval) : M world bytes :=
  match v with
  | JStr s => lift (b64decode s)
  | _ => raise (Exn TypeError "argument should be a bytes-like object")
  end.

(** The [audio_query] branch up to the echo of the transcript; a
    failure to remove the scratch file is swallowed. *)
Definition audio_text (data : option (gmap string jval)) : M world string :=
  (let* encoded := subscript data "audio_data" in
   let* audio_data := decode_audio encoded in
   let* _ := option_raise (write_scratch websocket audio_data) in
   let query_text := transcribe_audio audio_data in
   let* _ := send_json (UserMessage query_text) in
   ret query_text)%py.

(** The "Personalization" block. *)
Definition personalize (query_text : string) (s : session) : session :=
  if unset (user_name s) then
    match detect_user_name query_text with
    | Some n => if Text.nonempty n then set_user_name (Some n) s else s
    | None => s
    end
  else s.

(** Everything after [query_text] is known: one conversational turn. *)
Definition turn (query_text : string) (s : session) : M world session :=
  (let s1 := personalize query_text s in
   let* _ := commit websocket s1 in
   let* response_text :=
     try_except
       (with_generation
          (process_query db query_text s1 client_id (rag_chain s1)))
       (fun _ => ret rag_failure) in
   let* _ := respond response_text (language s1) in
   let s2 := update_chat_history query_text response_text s1 in
   let* _ := commit websocket s2 in
   ret s2)%py.

(** One pass through the body of [while True]. *)
Definition iteration (f : frame) (s : session) : M world session :=
  (let* data := receive_json f in
   let* type := get_field data "type" in
   if has_type type "language_switch" then
     let* language := subscript data "language" in
     let s1 := set_language language s in
     let* _ := commit websocket s1 in
     let* _ := send_json (Status "status" language) in
     ret s1
   else if has_type type "text_query" then
     let* query_text := text_field data in
     turn query_text s
   else if has_type type "audio_query" then
     let* query_text := audio_text data in
     turn query_text s
   else
     let* _ := send_json unsupported in
     ret s)%py.

(** Step 3 of the endpoint: the guarded loop. *)
Definition main_loop (frames : list frame) (s : session) (w : world)
  : ending session * world :=
  serve iteration websocket frames s w.

Definition new_session (chain : Chain) : session :=
  {| user_name := None; language := JStr "en";
     chat_history := []; rag_chain := chain |}.

(** [websocket_endpoint] after [websocket.accept()]. *)
Definition websocket_endpoint (frames : list frame) (w : world)
  : ending session * world :=
  match create_rag_chain db client_id with
  | Raise e =>
      match kind e with
      | ValueError =>
          match (let* _ := send_json (Error (message e)) in
                 close 1008)%py w with
          | (Ok _, w') => (Rejected, w')
          | (Raise e', w') => (Escaped e', w')
          end
      | _ => (Escaped e, w)
      end
  | Ok chain =>
      let s := new_session chain in
      match (let* _ := register websocket s in
             respond initial_greeting (language s))%py w with
      | (Raise e, w') => (Escaped e, w')
      | (Ok _, w') => main_loop frames s w'
      end
  end.

End Handler.

End Voice.

(** ** Inbound messages of the chat channel *)

Module Inbound.
Import Py Wire.

Definition text_query (t : string) : frame :=
  Json (<["type" := JStr "text_query"]> (<["text" := JStr t]> ∅)).

Definition audio_query (payload : string) : frame :=
  Json (<["type" := JStr "audio_query"]> (<["audio_data" := JStr payload]> ∅)).

Definition language_switch (code : string) : frame :=
  Json (<["type" := JStr "language_switch"]> (<["language" := JStr code]> ∅)).

(** One of the three types the handlers dispatch on. *)
Definition known_type (type : jval) : bool :=
  is_str type "language_switch" || is_str type "text_query"
  || is_str type "audio_query".

End Inbound.

(** ** Concrete collaborators, for running the handlers on examples *)

Module Demo.
Import Py VectorStore Session Wire.

(** An in-memory Chroma: chunks are stored as given, a collection opens
    once it exists, and a search returns the first [k] chunks of the
    collection, or none at all for the query "nothing". *)
Definition chroma : Chroma := {|
  split_documents := fun docs => docs;
  from_documents_ok := fun _ _ => true;
  open_ok := fun _ o => match o with Some _ => true | None => false end;
  similarity_search := fun docs q k =>
    if bool_decide (q = "nothing") then Ok [] else Ok (take k docs)
|}.

Definition chat_model : ChatModel := {| llm_client := Ok tt |}.

(** A chain in working order, as a repaired Choice backend would have
    it: the retriever searches for the question.  The chain the source
    builds does not get this far; it is [AsBuilt.lang_chain] below. *)
Definition lang_chain : ChoiceRag.LangChain := {|
  ChoiceRag.retriever_input := fun ci => Ok (ChoiceRag.ci_question ci);
  ChoiceRag.llm_invoke := fun inputs =>
    Ok ("Answer: " +:+ ChoiceRag.pi_context inputs)
|}.

Definition gemini : VoiceRag.Gemini := {|
  VoiceRag.generate_content_async := fun prompt =>
    Ok {| VoiceRag.text := Some ("Answer to: " +:+ prompt);
          VoiceRag.candidates_content := Ok "" |}
|}.

(** A transport that takes every message, a scratch file that never
    fails, a codec that passes the payload through as it is, and a
    Whisper that hears the payload's own text. *)
Definition runtime : Runtime := {|
  send_outcome := fun _ _ => None;
  b64decode := fun s => Ok (list_byte_of_string s);
  b64encode := fun b => string_of_list_byte b;
  basename := fun s => s;
  write_scratch := fun _ _ => None;
  remove_scratch := fun _ => None;
  whisper_model := Some (fun audio => Ok (string_of_list_byte audio))
|}.

Definition choice_speech : Choice.Speech :=
  {| Choice.gtts_save := fun _ _ => Ok "response.mp3" |}.

Definition voice_speech : Voice.Speech := {|
  Voice.generate_gtts_bytes := fun _ _ => [];
  Voice.speed_up_audio_bytes := fun b => b
|}.

Definition hours : Document :=
  {| page_content := "The office is open 9 to 5."; source := "hours.txt" |}.

(** The store after ingesting one file for tenant "acme". *)
Definition db : chroma_db :=
  (@load_and_embed_documents chroma "acme" [hours] ∅).2.

(** A document of another tenant. *)
Definition payroll : Document :=
  {| page_content := "Salaries are paid on the 25th."; source := "pay.txt" |}.

(** The chain and the session a connection of "acme" starts with. *)
Definition chain : Chain :=
  {| chain_retriever := {| r_collection := "client_acme"; r_k := 4 |} |}.

Definition session0 : session := Voice.new_session chain.

(** A message of a type the protocol does not know. *)
Definition ping : frame := Json (<["type" := JStr "ping"]> ∅).

(** A voice message in which [t] is said. *)
Definition voice_note (t : string) : frame := Inbound.audio_query t.

Definition empty_world {P} : world P := World ∅ [] [] None.

End Demo.

(** ** The chain of the Choice backend as it is built *)

Module AsBuilt.
Import Py.

(** [create_rag_chain] of the Choice backend fills the [context] slot
    with [retriever | format_docs] and puts nothing before the
    retriever, so the retriever is invoked on the whole chain-input
    dictionary.  Embedding a query that is no string fails, before any
    search and before generation. *)
Definition not_a_string : exn :=
  Exn AttributeError "'dict' object has no attribute 'replace'".

Definition lang_chain : ChoiceRag.LangChain := {|
  ChoiceRag.retriever_input := fun _ => Raise not_a_string;
  ChoiceRag.llm_invoke := fun inputs =>
    Ok ("Answer: " +:+ ChoiceRag.pi_context inputs)
|}.

End AsBuilt.

(** ** Vocabulary for stating the history properties *)

Module History.
Import Session Wire.

(** The two entries one completed turn leaves in the history. *)
Definition exchange (t : string * string) : list (Role * string) :=
  [(user, t.1); (assistant, t.2)].

(** The unbounded history of a sequence of (query, response) turns. *)
Definition transcript (turns : list (string * string))
  : list (Role * string) :=
  flat_map exchange turns.

(** The texts of the [Response] messages among those sent. *)
Definition responses (msgs : list out_msg) : list string :=
  flat_map (fun m => match m with Response t _ _ => [t] | _ => [] end) msgs.

(** User and assistant entries alternate, starting with the user and
    ending with the assistant. *)
Fixpoint well_shaped (h : list (Role * string)) : bool :=
  match h with
  | [] => true
  | (user, _) :: (assistant, _) :: rest => well_shaped rest
  | _ => false
  end.

Definition role_at (i : nat) : Role :=
  if Nat.even i then user else assistant.

End History.

(** ** Vocabulary for stating the registry properties *)

Module Registry.
Import Py Wire.

(** The registry entries of the connections other than [websocket]. *)
Definition others {P} (websocket : conn) (w : world P) : gmap conn Session.session :=
  delete websocket (active_sessions w).

(** A computation that leaves the other connections' entries alone,
    whether it returns or raises. *)
Definition keeps_others {P A} (websocket : conn) (m : M (world P) A) : Prop :=
  forall w, others websocket (m w).2 = others websocket w.

End Registry.

(** ** Both backends behind one interface *)

Module Backend.
Import Py VectorStore Session Wire.

Inductive backend := ChoiceBot | VoiceBot.

(** What can be observed of a connection once [websocket_endpoint] has
    run over the frames received so far. *)
Record observation := {
  final : ending session;
  registry : gmap conn session;
  outbox : list out_msg
}.

Definition greeting (b : backend) : string :=
  match b with
  | ChoiceBot => Choice.initial_greeting
  | VoiceBot => Voice.initial_greeting
  end.

Definition session_of (r : ending Choice.locals) : ending session :=
  match r with
  | Rejected => Rejected
  | Escaped e => Escaped e
  | Awaiting l => Awaiting (Choice.session_data l)
  | Closed e => Closed e
  end.

(** The closed mapping from language code to instruction wording. *)
Definition language_name (code : string) : string :=
  if bool_decide (code = "en") then "English"
  else if bool_decide (code = "hi") then "Hindi"
  else "English".

Section Connect.
Context `{Chroma} `{ChatModel} `{ChoiceRag.LangChain} `{VoiceRag.Gemini}
        `{Runtime} `{Choice.Speech} `{Voice.Speech}.
Variable db : chroma_db.

(** A new connection [websocket] of tenant [client_id], accepted while
    the registry holds [reg], served over [frames]. *)
Definition connect (b : backend) (websocket : conn) (client_id : string)
    (reg : gmap conn session) (frames : list frame) : observation :=
  match b with
  | ChoiceBot =>
      let '(r, w) :=
        Choice.websocket_endpoint db websocket client_id frames
          (World reg [] [] None) in
      {| final := session_of r; registry := active_sessions w;
         outbox := sent w |}
  | VoiceBot =>
      let '(r, w) :=
        Voice.websocket_endpoint db websocket client_id frames
          (World reg [] [] None) in
      {| final := r; registry := active_sessions w; outbox := sent w |}
  end.
End Connect.

End Backend.

(** ** The queries of a run *)

Module Turns.
Import Py Session Wire Backend.

Section Queries.
Context `{Runtime}.

(** The [type] field of a message is the string [kind]. *)
Definition has_type (data : gmap string jval) (kind : string) : bool :=
  match data !! "type" with
  | Some v => is_str v kind
  | None => false
  end.


End Queries.

End Turns.

(** ** Example connections *)

Module Scenario.
Import Py Session Wire Inbound Backend.

(** Six text turns. *)
Definition six_turns : list frame :=
  map text_query ["one"; "two"; "three"; "four"; "five"; "six"].

Definition introduces_alex : list frame :=
  [text_query "Hello, my name is Alex"].

Definition introduces_sam : list frame :=
  [text_query "Sorry, my name is Sam"].

Definition says_alex_then_sam : list frame :=
  [Demo.voice_note "my name is alex"; Demo.voice_note "my name is Sam"].

(** A registry that already holds another connection's session. *)
Definition busy : gmap conn session := {[ 3 := Demo.session0 ]}.

(** The session a waiting connection holds. *)
Definition awaited (o : observation) : session :=
  match final o with
  | Awaiting s => s
  | _ => Demo.session0
  end.

End Scenario.

(** ** More of Python's [str] *)

Module Str.
Import Text.

(** [str.lower()] on one character: the ASCII capitals and the capitals
    of the Latin-1 block (192 to 222, the multiplication sign apart). *)
Definition lower_char (c : ascii) : ascii :=
  if is_upper c || (between 192 222 c && negb (code c =? 215)%nat)
  then ascii_of_nat (code c + 32) else c.

(** [str.lower()]. *)
Definition lower (s : string) : string := map_string lower_char s.

(** Every character of the string satisfies [p]. *)
Fixpoint all (p : ascii -> bool) (s : string) : bool :=
  match s with
  | EmptyString => true
  | String c s' => p c && all p s'
  end.

(** The string does not begin with a character that satisfies [p]. *)
Definition not_headed (p : ascii -> bool) (s : string) : bool :=
  match s with
  | EmptyString => true
  | String c _ => negb (p c)
  end.

(** What [str.capitalize()] returns on a token of letters: a capital
    followed by small letters. *)
Definition capitalized (s : string) : bool :=
  match s with
  | EmptyString => false
  | String c s' => is_upper c && all is_lower s'
  end.

End Str.

(** ** Intent detection: [detect_intent] of voice-bot-backend/app/main.py *)

Module Intent.
Import Text Str.

Definition booking_keywords : list string :=
  ["book"; "site visit"; "site-visit"; "schedule visit"; "site visit";
   "visit site"; "site visit"].

Definition contact_keywords : list string :=
  ["save my number"; "my number is"; "my phone is"; "contact"; "call me"].

(** [any(kw in t for kw in keywords)]. *)
Definition mentions (keywords : list string) (t : string) : bool :=
  existsb (fun kw => contains kw t) keywords.

(** [detect_intent]; the argument is [None] or a string. *)
Definition detect_intent (text : option string) : option string :=
  let t := lower (default "" text) in
  if mentions booking_keywords t then Some "book_visit"
  else if mentions contact_keywords t then Some "save_contact"
  else None.

End Intent.

(** ** Document loading and ingestion: core/vector_store.py and the
    [/ingest/] endpoint of app/main.py (both backends) *)

Module Ingestion.
Import Py Text Str VectorStore.

(** The flavour of [os.path] the process runs on. *)
Inductive flavour := Posix | Nt.

Definition backslash : ascii := ascii_of_nat 92.

Definition is_sep (os : flavour) (c : ascii) : bool :=
  match os with
  | Posix => Ascii.eqb c "/"
  | Nt => Ascii.eqb c "/" || Ascii.eqb c backslash
  end.

Definition is_dot (c : ascii) : bool := Ascii.eqb c ".".

(** The text after the last character of [s] that satisfies [p], if
    there is such a character. *)
Fixpoint rsplit (p : ascii -> bool) (s : string) : option string :=
  match s with
  | EmptyString => None
  | String c s' =>
      match rsplit p s' with
      | Some t => Some t
      | None => if p c then Some s' else None
      end
  end.

(** The last component of a path: what follows its last separator. *)
Definition basename (os : flavour) (p : string) : string :=
  default p (rsplit (is_sep os) p).

(** [os.path.splitext(p)[1]]: the extension starts at the last dot of
    the last component, the dots that lead the component not counted;
    it is empty when no such dot is left. *)
Definition extension (os : flavour) (p : string) : string :=
  match rsplit is_dot (drop_while is_dot (basename os p)) with
  | Some t => String "." t
  | None => ""
  end.

(** The four LangChain loaders, each built around the path of its file. *)
Inductive Loader :=
| PyPDFLoader (file_path : string)
| Docx2txtLoader (file_path : string)
| CSVLoader (file_path : string)
| TextLoader (file_path : string).

(** [get_document_loader(file_path)]: the loader class chosen for the
    path.  The call of its constructor, which the source makes in the
    same [return], is [loader_init] below. *)
Definition get_document_loader (os : flavour) (file_path : string)
  : option Loader :=
  let extension := lower (extension os file_path) in
  if bool_decide (extension = ".pdf") then Some (PyPDFLoader file_path)
  else if bool_decide (extension = ".docx")
  then Some (Docx2txtLoader file_path)
  else if bool_decide (extension = ".csv") then Some (CSVLoader file_path)
  else if bool_decide (extension = ".txt") then Some (TextLoader file_path)
  else None.

(** The file system and the loaders are external. *)
Class FileSystem := {
  os : flavour;
  isdir : string -> bool;
  listdir : string -> result (list string);
  (** [os.path.join(source_directory, filename)]. *)
  path_join : string -> string -> string;
  (** The constructor of the loader's class on its path: it returns, or
      it raises (the PDF and DOCX loaders refuse a path that is no
      file). *)
  loader_init : Loader -> option exn;
  (** [loader.load()] on a loader that was constructed. *)
  load : Loader -> result (list Document)
}.

(** What a request to [/ingest/] is answered with: the success message
    under status 200, or the detail of the [HTTPException] raised. *)
Record reply := { status : nat; detail : string }.

Section Ingest.
Context `{Chroma} `{FileSystem}.

(** The body of the [for filename in os.listdir(...)] loop: the
    documents list after one more file.  [get_document_loader] is called
    before the [try]: what the constructor raises leaves the loop; what
    [load()] raises is caught and the file is passed over. *)
Definition load_file (source_directory : string)
    (documents : list Document) (filename : string)
  : result (list Document) :=
  let file_path := path_join source_directory filename in
  match get_document_loader os file_path with
  | Some loader =>
      match loader_init loader with
      | Some e => Raise e
      | None =>
          match load loader with
          | Ok docs => Ok (documents ++ docs)
          | Raise _ => Ok documents
          end
      end
  | None => Ok documents
  end.

(** The loop over a listing, entered with the documents gathered so
    far; the source enters it with [documents = []]. *)
Fixpoint load_directory (source_directory : string)
    (filenames : list string) (documents : list Document)
  : result (list Document) :=
  match filenames with
  | [] => Ok documents
  | filename :: rest =>
      match load_file source_directory documents filename with
      | Ok documents' => load_directory source_directory rest documents'
      | Raise e => Raise e
      end
  end.

(** The whole of [load_and_embed_documents(client_id, source_directory)]:
    the loading loop, then the splitting and the commit of
    [VectorStore.load_and_embed_documents].  Neither [os.listdir] nor
    the loop is guarded: what they raise leaves the function. *)
Definition load_and_embed_documents
    (client_id source_directory : string) (db : chroma_db)
  : result bool * chroma_db :=
  match listdir source_directory with
  | Raise e => (Raise e, db)
  | Ok filenames =>
      match load_directory source_directory filenames [] with
      | Raise e => (Raise e, db)
      | Ok documents =>
          match
            VectorStore.load_and_embed_documents client_id documents db
          with
          | (success, db') => (Ok success, db')
          end
      end
  end.

Definition not_a_directory (source_path : string) : reply :=
  {| status := 400;
     detail := "Source directory not found: " +:+ source_path |}.

Definition ingested (client_id : string) : reply :=
  {| status := 200;
     detail := "Ingestion successful for client '" +:+ client_id +:+ "'." |}.

Definition ingestion_failed : reply :=
  {| status := 500; detail := "Ingestion failed." |}.

(** [http_ingest_data(client_id, source_path)].  An exception that is
    not an [HTTPException] leaves the endpoint as it is. *)
Definition http_ingest_data
    (client_id source_path : string) (db : chroma_db)
  : result reply * chroma_db :=
  if negb (isdir source_path) then (Ok (not_a_directory source_path), db)
  else
    match load_and_embed_documents client_id source_path db with
    | (Raise e, db') => (Raise e, db')
    | (Ok success, db') =>
        if success then (Ok (ingested client_id), db')
        else (Ok ingestion_failed, db')
    end.
End Ingest.

End Ingestion.

(** ** A directory tree, for running ingestion on examples *)

Module Files.
Import Py VectorStore Ingestion.

Definition notes : Document :=
  {| page_content := "Visits are on Mondays."; source := "docs/Notes.TXT" |}.

(** What the PDF loader says of a path that is no file. *)
Definition not_a_file : exn :=
  Exn ValueError "File path mixed/scans.pdf is not a valid file or url".

(** A POSIX tree: [docs] holds a text file, a spreadsheet no loader
    reads, a PDF whose [load()] raises and a hidden file; [mixed] holds
    a text file and a subdirectory named [scans.pdf]; [empty] holds
    nothing. *)
Definition file_system : FileSystem := {|
  os := Posix;
  isdir := fun p =>
    bool_decide (p = "docs") || bool_decide (p = "mixed")
    || bool_decide (p = "empty");
  listdir := fun p =>
    if bool_decide (p = "docs")
    then Ok ["Notes.TXT"; "plan.xlsx"; "broken.pdf"; ".txt"]
    else if bool_decide (p = "mixed") then Ok ["Notes.TXT"; "scans.pdf"]
    else if bool_decide (p = "empty") then Ok []
    else Raise (Exn OtherError "No such file or directory");
  path_join := fun a b => a +:+ "/" +:+ b;
  loader_init := fun loader =>
    match loader with
    | PyPDFLoader p =>
        if bool_decide (p = "mixed/scans.pdf") then Some not_a_file else None
    | _ => None
    end;
  load := fun loader =>
    match loader with
    | TextLoader _ => Ok [notes]
    | _ => Raise (Exn OtherError "cannot read")
    end
|}.

End Files.

(** ** Speech synthesis of the Voice backend: core/audio_service.py *)

Module VoiceAudio.
Import Py Text Str Wire.

(** [LANGUAGE_MAP]. *)
Definition LANGUAGE_MAP : gmap string string :=
  list_to_map
    [("en", "en"); ("english", "en"); ("en-US", "en"); ("en-GB", "en");
     ("hi", "hi"); ("hindi", "hi")].

(** [LANGUAGE_MAP.get(language.lower(), "en") if isinstance(language, str)
    else "en"]. *)
Definition lang_code (language : jval) : string :=
  match language with
  | JStr l => default "en" (LANGUAGE_MAP !! lower l)
  | _ => "en"
  end.

(** The class [[\*_`]]. *)
Definition is_markup (c : ascii) : bool :=
  Ascii.eqb c "*" || Ascii.eqb c "_" || Ascii.eqb c "`".

(** [re.sub(cls, '', s)] for a class of single characters. *)
Fixpoint remove (p : ascii -> bool) (s : string) : string :=
  match s with
  | EmptyString => EmptyString
  | String c s' => if p c then remove p s' else String c (remove p s')
  end.

Definition isnt (d : ascii) (c : ascii) : bool := negb (Ascii.eqb c d).

(** One attempt of [\[([^\]]+)\]\([^\)]+\)] anchored at the head of the
    text: group 1 and the text after the match.  Each class excludes the
    character that must follow its run, so the greedy runs never give
    characters back. *)
Definition link_at (s : string) : option (string * string) :=
  match s with
  | String "[" s1 =>
      let label := take_while (isnt "]") s1 in
      match drop_while (isnt "]") s1 with
      | String "]" (String "(" s2) =>
          let target := take_while (isnt ")") s2 in
          match drop_while (isnt ")") s2 with
          | String ")" rest =>
              if nonempty label && nonempty target
              then Some (label, rest) else None
          | _ => None
          end
      | _ => None
      end
  | _ => None
  end.

(** [re.sub(link, r'\1', s)]: matches are taken from left to right and
    do not overlap.  [skip] counts the characters of the current match
    still to be passed over. *)
Fixpoint sub_links (skip : nat) (s : string) : string :=
  match s with
  | EmptyString => EmptyString
  | String c s' =>
      match skip with
      | S k => sub_links k s'
      | O =>
          match link_at s with
          | Some (label, rest) =>
              label +:+ sub_links (String.length s' - String.length rest) s'
          | None => String c (sub_links 0 s')
          end
      end
  end.

(** [clean_text_for_tts(text)]. *)
Definition clean_text_for_tts (text : string) : string :=
  let text := remove is_markup text in
  let text := sub_links 0 text in
  strip text.

(** gTTS and ffmpeg are external: the MP3 of a text in a language, and
    the return code and output of the tempo filter. *)
Class Synthesis := {
  gtts : string -> string -> result bytes;
  ffmpeg_atempo : bytes -> result (nat * bytes)
}.

Section Speech.
Context `{Synthesis}.

(** [generate_gtts_bytes(text, language)]. *)
Definition generate_gtts_bytes (text : string) (language : jval) : bytes :=
  match gtts (clean_text_for_tts text) (lang_code language) with
  | Ok mp3 => mp3
  | Raise _ => []
  end.

(** [speed_up_audio_bytes(audio_bytes, speed)]. *)
Definition speed_up_audio_bytes (audio_bytes : bytes) : bytes :=
  match ffmpeg_atempo audio_bytes with
  | Ok (O, output) => output
  | Ok (S _, _) => audio_bytes
  | Raise _ => audio_bytes
  end.

(** The two helpers as the handler of app/main.py uses them. *)
Definition speech : Voice.Speech := {|
  Voice.generate_gtts_bytes := generate_gtts_bytes;
  Voice.speed_up_audio_bytes := speed_up_audio_bytes
|}.
End Speech.

End VoiceAudio.

(** ** Vocabulary for stating what a handler sends *)

Module Outbox.
Import Py Wire Backend.

(** A computation that, whether it returns or raises, leaves the
    messages already sent as they are and adds only messages that
    satisfy [allowed]. *)
Definition emits {P A} (allowed : out_msg -> bool) (m : M (world P) A)
  : Prop :=
  forall w, exists msgs,
    sent (m w).2 = sent w ++ msgs /\ forallb allowed msgs = true.

(** The shape of the messages of each backend: the audio of a response
    travels inline in the Voice backend and by URL in the Choice
    backend, and the two spell the type of an acknowledgement
    differently. *)
Definition format (b : backend) (m : out_msg) : bool :=
  match b, m with
  | _, Error _ => true
  | _, UserMessage _ => true
  | VoiceBot, Status type _ => bool_decide (type = "status")
  | ChoiceBot, Status type _ => bool_decide (type = " status")
  | VoiceBot, Response _ (Some _) None => true
  | ChoiceBot, Response _ None (Some _) => true
  | _, Response _ _ _ => false
  end.

(** The echo of a transcript. *)
Definition is_echo (m : out_msg) : bool :=
  match m with UserMessage _ => true | _ => false end.

End Outbox.

(** ** Collaborators of a bad day: generation that always fails, a
    Whisper model that is not there *)

Module Outage.
Import Py.

Definition unavailable : exn := Exn OtherError "503 Service Unavailable".

Definition lang_chain : ChoiceRag.LangChain := {|
  ChoiceRag.retriever_input := fun ci => Ok (ChoiceRag.ci_question ci);
  ChoiceRag.llm_invoke := fun _ => Raise unavailable
|}.

Definition gemini : VoiceRag.Gemini :=
  {| VoiceRag.generate_content_async := fun _ => Raise unavailable |}.

(** The runtime of [Demo], with a Whisper model that did not load. *)
Definition runtime : Wire.Runtime := {|
  Wire.send_outcome := fun _ _ => None;
  Wire.b64decode := fun s => Ok (list_byte_of_string s);
  Wire.b64encode := fun b => string_of_list_byte b;
  Wire.basename := fun s => s;
  Wire.write_scratch := fun _ _ => None;
  Wire.remove_scratch := fun _ => None;
  Wire.whisper_model := None
|}.

End Outage.

(** * Properties *)

(** ** Lists and slices *)

Section Slices.
Import Session History.
Context {A : Type}.
Implicit Types l k : list A.

Lemma last_n_short n l : List.length l <= n -> last_n n l = l.
Proof.
  intros Hle. unfold last_n.
  replace (List.length l - n) with 0 by lia. apply drop_0.
Qed.

Lemma length_last_n n l : List.length (last_n n l) = Nat.min n (List.length l).
Proof. unfold last_n. rewrite length_drop. lia. Qed.

(** Slicing before and after an append is slicing once after it. *)
Lemma last_n_app_last_n n l k :
  last_n n (last_n n l ++ k) = last_n n (l ++ k).
Proof.
  destruct (Nat.le_gt_cases (List.length l) n) as [Hle | Hgt].
  - by rewrite (last_n_short n l).
  - unfold last_n at 1 3.
    rewrite !length_app, length_last_n, !drop_app.
    unfold last_n. rewrite drop_drop, length_drop. f_equal; f_equal; lia.
Qed.
End Slices.

Section Transcripts.
Import Session History.
Implicit Types turns : list (string * string).

Lemma transcript_app turns1 turns2 :
  transcript (turns1 ++ turns2) = transcript turns1 ++ transcript turns2.
Proof. unfold transcript. apply flat_map_app. Qed.

Lemma length_transcript turns :
  List.length (transcript turns) = 2 * List.length turns.
Proof. induction turns as [| t turns IH]; simpl in *; lia. Qed.

Lemma drop_transcript k turns :
  drop (2 * k) (transcript turns) = transcript (drop k turns).
Proof.
  revert turns. induction k as [| k IH]; intros turns; [done |].
  destruct turns as [| t turns]; [done |].
  replace (2 * S k) with (S (S (2 * k))) by lia. simpl. apply IH.
Qed.

(** The last [2k] entries are the last [k] exchanges. *)
Lemma last_n_transcript k turns :
  last_n (2 * k) (transcript turns) = transcript (last_n k turns).
Proof.
  unfold last_n. rewrite length_transcript, <- drop_transcript.
  f_equal. lia.
Qed.

(** The three history statements of a turn, on a bounded history. *)
Lemma chat_history_update q r s before :
  chat_history s = last_n 10 (transcript before) ->
  chat_history (update_chat_history q r s)
  = last_n 10 (transcript (before ++ [(q, r)])).
Proof.
  intros Hs. unfold update_chat_history.
  cbn [chat_history set_chat_history].
  by rewrite Hs, <- app_assoc, last_n_app_last_n, transcript_app.
Qed.

Lemma well_shaped_transcript turns : well_shaped (transcript turns) = true.
Proof. induction turns as [| [q r] turns IH]; simpl; auto. Qed.

Lemma well_shaped_lookup h i e :
  well_shaped h = true -> h !! i = Some e -> e.1 = role_at i.
Proof.
  revert h. induction (lt_wf i) as [i _ IH]. intros h Hh Hi.
  destruct h as [| [[] q] [| [[] r] rest]]; try discriminate.
  destruct i as [| [| i]]; simpl in *.
  - by inversion Hi.
  - by inversion Hi.
  - rewrite (IH i ltac:(lia) rest Hh Hi). unfold role_at. simpl. done.
Qed.

Lemma well_shaped_even h : well_shaped h = true -> Nat.Even (List.length h).
Proof.
  revert h. fix IH 1. intros h Hh.
  destruct h as [| [[] q] [| [[] r] rest]]; try discriminate.
  - by exists 0.
  - destruct (IH rest Hh) as [m Hm]. exists (S m). simpl. lia.
Qed.
End Transcripts.

(** ** Name detection *)

Section NameDetectionFacts.
Import Text NameDetection.

Lemma match_here_nonempty lit text g :
  match_here lit text = Some g -> nonempty g = true.
Proof.
  unfold match_here. destruct (match_literal lit text) as [rest |]; [| done].
  destruct (nonempty (take_while is_space rest)); [| done].
  destruct (nonempty (take_while is_alpha (drop_while is_space rest))) eqn:E;
    [| done].
  by intros [= <-].
Qed.

Lemma re_search_nonempty lit text g :
  re_search lit text = Some g -> nonempty g = true.
Proof.
  induction text as [| c text IH]; simpl;
    destruct (match_here lit _) as [g' |] eqn:E; try done;
    intros [= <-]; eauto using match_here_nonempty.
Qed.

Lemma capitalize_nonempty g : nonempty g = true -> nonempty (capitalize g) = true.
Proof. by destruct g. Qed.

(** Only the first pattern decides the result of the source function. *)
Lemma detect_user_name_first_only text :
  detect_user_name text = capitalize <$> re_search "my name is" text.
Proof.
  unfold detect_user_name, patterns, loop_body_returns.
  by destruct (re_search _ text).
Qed.

Lemma detect_user_name_nonempty text n :
  detect_user_name text = Some n -> nonempty n = true.
Proof.
  rewrite detect_user_name_first_only.
  destruct (re_search _ text) as [g |] eqn:E; [| done].
  intros [= <-]. eauto using capitalize_nonempty, re_search_nonempty.
Qed.

(** Where the first pattern matches, source and specification agree. *)
Lemma detect_user_name_agrees text g :
  re_search "my name is" text = Some g ->
  detect_user_name text = Some (capitalize g)
  /\ detect_user_name_spec text = Some (capitalize g).
Proof.
  intros E. unfold detect_user_name, detect_user_name_spec, patterns.
  simpl. by rewrite E.
Qed.

(** C2.  On "I am Alex" and on "I'm Sam" the source function returns no
    name, although the second and third pattern match them: the loop
    returns after consulting "my name is" alone.  Trying the three
    patterns in order, as described, yields "Alex" and "Sam". *)
Theorem detect_user_name_ignores_later_patterns :
  detect_user_name "I am Alex" = None
  /\ detect_user_name "well, i'm sam" = None
  /\ detect_user_name_spec "I am Alex" = Some "Alex"
  /\ detect_user_name_spec "well, i'm sam" = Some "Sam"
  /\ detect_user_name "My name is alex" = Some "Alex".
Proof. repeat split; vm_compute; reflexivity. Qed.

End NameDetectionFacts.

(** ** Tenant isolation of the knowledge store *)

Section Isolation.
Import Py VectorStore Session.
Context `{Chroma} `{ChatModel} `{ChoiceRag.LangChain} `{VoiceRag.Gemini}.
Implicit Types db : chroma_db.

Lemma collection_name_inj a b : collection_name a = collection_name b -> a = b.
Proof. unfold collection_name. apply String.app_inj. Qed.

(** Ingestion for one tenant changes no other tenant's collection. *)
Lemma load_and_embed_documents_other a b docs db :
  a <> b ->
  (load_and_embed_documents b docs db).2 !! collection_name a
  = db !! collection_name a.
Proof.
  intros Hab. unfold load_and_embed_documents.
  destruct docs as [| d docs]; [done |].
  destruct (from_documents_ok _ _); [| done]. simpl.
  apply lookup_insert_ne. intros E. by apply collection_name_inj in E.
Qed.

Lemma get_vector_retriever_collection db a k r :
  get_vector_retriever db a k = Some r -> r_collection r = collection_name a.
Proof.
  unfold get_vector_retriever. destruct (open_ok _ _); [| done].
  by intros [= <-].
Qed.

Lemma create_rag_chain_collection db a chain :
  create_rag_chain db a = Ok chain ->
  r_collection (chain_retriever chain) = collection_name a.
Proof.
  unfold create_rag_chain.
  destruct (get_vector_retriever db a 4) as [r |] eqn:E; [| done].
  destruct llm_client; [| done]. intros [= <-].
  eauto using get_vector_retriever_collection.
Qed.

Lemma get_relevant_documents_same db db' r q :
  db' !! r_collection r = db !! r_collection r ->
  get_relevant_documents db' r q = get_relevant_documents db r q.
Proof. unfold get_relevant_documents. by intros ->. Qed.

(** C1.  For distinct tenants [a] and [b] the collection names differ
    (the derivation is injective), and ingesting documents under [b]
    changes nothing tenant [a] can observe: not whether its retriever
    opens, not what any retriever bound to [a] returns, and not the
    answer or the generation requests of [process_query] run for [a] in
    either backend. *)
Theorem tenant_isolation a b docs db :
  a <> b ->
  let db' := (load_and_embed_documents b docs db).2 in
  (forall x y, collection_name x = collection_name y -> x = y)
  /\ collection_name a <> collection_name b
  /\ (forall k, get_vector_retriever db' a k = get_vector_retriever db a k)
  /\ (forall k r q,
        get_vector_retriever db a k = Some r ->
        r_collection r = collection_name a
        /\ get_relevant_documents db' r q = get_relevant_documents db r q)
  /\ (forall q s chain calls,
        VoiceRag.process_query db' q s a chain calls
        = VoiceRag.process_query db q s a chain calls)
  /\ (forall db0 q s chain calls,
        create_rag_chain db0 a = Ok chain ->
        ChoiceRag.process_query db' q s a chain calls
        = ChoiceRag.process_query db q s a chain calls).
Proof.
  intros Hab db'.
  assert (Hsame : db' !! collection_name a = db !! collection_name a)
    by (by apply load_and_embed_documents_other).
  assert (Hret : forall k,
             get_vector_retriever db' a k = get_vector_retriever db a k)
    by (intros k; unfold get_vector_retriever; by rewrite Hsame).
  split; [exact collection_name_inj |].
  split; [intros E; by apply collection_name_inj in E |].
  split; [exact Hret |].
  split; [| split].
  - intros k r q Hr.
    pose proof (get_vector_retriever_collection _ _ _ _ Hr) as Hc.
    split; [done |]. apply get_relevant_documents_same. by rewrite Hc.
  - intros q s chain calls. unfold VoiceRag.process_query. rewrite Hret.
    destruct (get_vector_retriever db a 4) as [r |] eqn:Hr; [| done].
    pose proof (get_vector_retriever_collection _ _ _ _ Hr) as Hc.
    rewrite (get_relevant_documents_same db db' r q); [done |].
    by rewrite Hc.
  - intros db0 q s chain calls Hchain.
    pose proof (create_rag_chain_collection _ _ _ Hchain) as Hc.
    unfold ChoiceRag.process_query, ChoiceRag.rag_chain_invoke, bind, lift.
    destruct (ChoiceRag.language_instruction _) as [instr | e]; [| done].
    destruct (ChoiceRag.retriever_input _) as [text | e]; [| done].
    rewrite (get_relevant_documents_same db db' _ text); [done |].
    by rewrite Hc.
Qed.

End Isolation.

(** ** The monad and the wire operations *)

Section MonadFacts.
Import Py.
Context {S A B : Type}.

Lemma bind_ok (m : M S A) (k : A -> M S B) w b w' :
  bind m k w = (Ok b, w') ->
  exists a w1, m w = (Ok a, w1) /\ k a w1 = (Ok b, w').
Proof.
  unfold bind. destruct (m w) as [[a | e] w1]; [eauto | done].
Qed.

End MonadFacts.

Section WireFacts.
Import Py Session Wire History Registry.
Context `{Runtime} {P : Type}.
Implicit Types w : world P.

Lemma send_json_ok m w u w' :
  send_json m w = (Ok u, w') ->
  w' = World (active_sessions w) (sent w ++ [m]) (generated w) (close_code w).
Proof.
  unfold send_json. destruct (send_outcome _ _); [done |]. by intros [= _ <-].
Qed.

Lemma responses_app l1 l2 : responses (l1 ++ l2) = responses l1 ++ responses l2.
Proof. unfold responses. apply flat_map_app. Qed.

(** *** Computations that leave the other connections' entries alone *)

Lemma keeps_ret {A} ws (a : A) : keeps_others (P:=P) ws (ret a).
Proof. done. Qed.

Lemma keeps_raise {A} ws e : keeps_others (P:=P) (A:=A) ws (raise e).
Proof. done. Qed.

Lemma keeps_bind {A B} ws (m : M (world P) A) (k : A -> M (world P) B) :
  keeps_others ws m -> (forall a, keeps_others ws (k a)) ->
  keeps_others ws (bind m k).
Proof.
  intros Hm Hk w. unfold bind. specialize (Hm w).
  destruct (m w) as [[a | e] w1]; simpl in *; [| done].
  by rewrite (Hk a w1).
Qed.

Lemma keeps_try_except {A} ws (m : M (world P) A) h :
  keeps_others ws m -> (forall e, keeps_others ws (h e)) ->
  keeps_others ws (try_except m h).
Proof.
  intros Hm Hh w. unfold try_except. specialize (Hm w).
  destruct (m w) as [[a | e] w1]; simpl in *; [done |].
  by rewrite (Hh e w1).
Qed.

Lemma keeps_send_json ws m : keeps_others (P:=P) ws (send_json m).
Proof. intros w. unfold send_json. by destruct (send_outcome _ _). Qed.

Lemma keeps_option_raise ws o : keeps_others (P:=P) ws (option_raise o).
Proof. by destruct o. Qed.

Lemma keeps_receive_json ws f : keeps_others (P:=P) ws (receive_json f).
Proof. by destruct f. Qed.

Lemma keeps_with_generation {A} ws (m : M (list P) A) :
  keeps_others ws (with_generation m).
Proof. intros w. unfold with_generation. by destruct (m _). Qed.

Lemma keeps_getitem ws d key : keeps_others ws (getitem (S:=world P) d key).
Proof. unfold getitem. by destruct (d !! key). Qed.

(** A change to the connection's own session touches its own entry. *)
Lemma keeps_commit ws s : keeps_others (P:=P) ws (commit ws s).
Proof.
  intros w. unfold commit, modify, others. simpl.
  apply map_eq. intros i. destruct (decide (i = ws)) as [-> | Hne].
  - by rewrite !lookup_delete_eq.
  - by rewrite !lookup_delete_ne, lookup_alter_ne.
Qed.

Lemma others_register ws s w u w' :
  register ws s w = (Ok u, w') ->
  others ws w' = others ws w /\ sent w' = sent w.
Proof.
  unfold register, modify, others. intros [= _ <-]. simpl.
  split; [| done]. apply delete_insert_eq.
Qed.

(** The [finally] clause removes the entry and nothing else. *)
Lemma cleanup_removes ws w :
  active_sessions (cleanup ws w) !! ws = None
  /\ others ws (cleanup ws w) = others ws w.
Proof.
  unfold cleanup, others.
  destruct (active_sessions w !! ws) eqn:E; simpl.
  - split; [apply lookup_delete_eq | apply delete_delete_eq].
  - done.
Qed.

(** *** Steps that return leave the world as it was *)

Lemma receive_json_ok f w data w' :
  receive_json f w = (Ok data, w') -> w' = w.
Proof. destruct f; by intros [= _ <-]. Qed.

Lemma option_raise_ok (o : option exn) w u w' :
  option_raise o w = (Ok u, w') -> w' = w.
Proof. destruct o; [done |]. by intros [= _ <-]. Qed.

Lemma getitem_ok d key w v w' :
  getitem d key w = (Ok v, w') -> w' = w /\ d !! key = Some v.
Proof.
  unfold getitem. destruct (d !! key); [| done]. by intros [= <- <-].
Qed.

(** *** Runs of the guarded loop *)

Section Serve.
Context {L : Type}.
Variables (body : frame -> L -> M (world P) L) (ws : conn).

Lemma serve_app frames more l w :
  serve body ws (frames ++ more) l w
  = match serve body ws frames l w with
    | (Awaiting l1, w1) => serve body ws more l1 w1
    | stopped => stopped
    end.
Proof.
  revert l w. induction frames as [| f frames IH]; intros l w; simpl.
  - by destruct (serve body ws more l w) as [[] ?].
  - destruct (body f l w) as [[l1 | e] w1]; [apply IH | done].
Qed.

(** However the loop is left, the connection's entry is gone. *)
Lemma serve_closed frames l w e w' :
  serve body ws frames l w = (Closed e, w') ->
  active_sessions w' !! ws = None.
Proof.
  revert l w. induction frames as [| f frames IH]; intros l w; simpl.
  - done.
  - destruct (body f l w) as [[l1 | e1] w1]; [apply IH |].
    intros [= _ <-]. apply cleanup_removes.
Qed.

Lemma serve_others frames l w r w' :
  (forall f l, keeps_others ws (body f l)) ->
  serve body ws frames l w = (r, w') ->
  others ws w' = others ws w.
Proof.
  intros Hbody. revert l w.
  induction frames as [| f frames IH]; intros l w; simpl.
  - by intros [= _ <-].
  - pose proof (Hbody f l w) as Hk.
    destruct (body f l w) as [[l1 | e] w1]; simpl in Hk.
    + intros E. apply IH in E. congruence.
    + intros [= _ <-]. destruct (cleanup_removes ws w1). congruence.
Qed.

(** A property of the local state that every returning pass keeps,
    together with a preorder relating the state before and after. *)
Lemma serve_invariant (I : L -> Prop) (R : relation L) frames l w l' w' :
  (forall l, R l l) -> (forall a b c, R a b -> R b c -> R a c) ->
  (forall f l w l' w',
      body f l w = (Ok l', w') -> I l -> I l' /\ R l l') ->
  serve body ws frames l w = (Awaiting l', w') ->
  I l -> I l' /\ R l l'.
Proof.
  intros Hrefl Htrans Hbody. revert l w.
  induction frames as [| f frames IH]; intros l w; simpl.
  - intros [= <- _]. auto.
  - destruct (body f l w) as [[l1 | e] w1] eqn:Eb; [| done].
    intros E Hl. destruct (Hbody _ _ _ _ _ Eb Hl) as [Hl1 Hr1].
    destruct (IH _ _ E Hl1) as [Hl' Hr']. split; [done |]. eauto.
Qed.

(** If every returning pass either leaves history and responses alone
    or completes a turn, the history after a run is the bounded slice
    of what the completed turns appended. *)
Lemma serve_history (hist : L -> list (Role * string))
    frames before l w l' w' :
  (forall f l w l' w',
      body f l w = (Ok l', w') ->
      (hist l' = hist l /\ responses (sent w') = responses (sent w))
      \/ exists q r,
           (forall before,
               hist l = last_n 10 (transcript before) ->
               hist l' = last_n 10 (transcript (before ++ [(q, r)])))
           /\ responses (sent w') = responses (sent w) ++ [r]) ->
  hist l = last_n 10 (transcript before) ->
  serve body ws frames l w = (Awaiting l', w') ->
  exists turns,
    hist l' = last_n 10 (transcript (before ++ turns))
    /\ responses (sent w') = responses (sent w) ++ map snd turns.
Proof.
  intros Hbody. revert before l w.
  induction frames as [| f frames IH]; intros before l w Hl; simpl.
  - intros [= <- <-]. exists []. by rewrite !app_nil_r.
  - destruct (body f l w) as [[l1 | e] w1] eqn:Eb; [| done].
    intros E.
    destruct (Hbody _ _ _ _ _ Eb) as [[Hh Er] | (q & r & Hh & Er)].
    + destruct (IH before l1 w1 ltac:(congruence) E) as (turns & Hh' & Hr).
      exists turns. by rewrite Hh', Hr, Er.
    + destruct (IH (before ++ [(q, r)]) l1 w1 (Hh _ Hl) E)
        as (turns & Hh' & Hr).
      exists ((q, r) :: turns).
      by rewrite Hh', Hr, Er, <- !app_assoc.
Qed.
End Serve.
End WireFacts.

(** Inversion of a computation that returned. *)
Ltac step_ok :=
  match goal with
  | E : Py.bind _ _ _ = (Py.Ok _, _) |- _ =>
      apply bind_ok in E as (? & ? & ? & E)
  | E : Py.ret _ _ = (Py.Ok _, _) |- _ =>
      unfold Py.ret in E; inversion E; subst; clear E
  | E : Py.raise _ _ = (Py.Ok _, _) |- _ => discriminate E
  | E : Py.lift _ _ = (_, _) |- _ =>
      unfold Py.lift in E; inversion E; subst; clear E
  | E : Py.modify _ _ = (_, _) |- _ =>
      unfold Py.modify in E; inversion E; subst; clear E
  | E : Wire.commit _ _ _ = (_, _) |- _ => unfold Wire.commit in E
  | E : Wire.send_json _ _ = (Py.Ok _, _) |- _ =>
      apply send_json_ok in E; subst
  | E : Wire.receive_json _ _ = (Py.Ok _, _) |- _ =>
      apply receive_json_ok in E as ->
  | E : Wire.option_raise _ _ = (Py.Ok _, _) |- _ =>
      apply option_raise_ok in E as ->
  end.

(** ** The Voice handler *)

Section VoiceFacts.
Import Py VectorStore Session Wire History Registry NameDetection Voice.
Context `{Chroma} `{ChatModel} `{VoiceRag.Gemini} `{Runtime} `{Voice.Speech}.
Variables (db : chroma_db) (websocket : conn) (client_id : string).
Implicit Types (w : world) (s : session).

Lemma voice_respond_ok t lang w u w' :
  respond t lang w = (Ok u, w') ->
  exists a b,
    w' = World (active_sessions w) (sent w ++ [Response t a b])
               (generated w) (close_code w).
Proof.
  unfold respond. destruct (audio_fields _) as [a b]. intros E.
  step_ok. eauto.
Qed.

(** Answering changes the generation log only. *)
Lemma voice_answer_sent q s w r w' :
  try_except
    (with_generation
       (VoiceRag.process_query db q s client_id (rag_chain s)))
    (fun _ => ret rag_failure) w = (r, w') ->
  sent w' = sent w /\ active_sessions w' = active_sessions w.
Proof.
  unfold try_except, with_generation.
  destruct (VoiceRag.process_query _ _ _ _ _ _) as [[a | e] calls];
    by intros [= _ <-].
Qed.

Lemma voice_turn_ok q s w s' w' :
  turn db websocket client_id q s w = (Ok s', w') ->
  exists r,
    s' = update_chat_history q r (personalize q s)
    /\ responses (sent w') = responses (sent w) ++ [r].
Proof.
  unfold turn. intros E. repeat step_ok.
  match goal with E : try_except _ _ _ = _ |- _ =>
    apply voice_answer_sent in E as [Es _] end.
  match goal with E : respond _ _ _ = _ |- _ =>
    apply voice_respond_ok in E as (a & b & ->) end.
  eexists. split; [done |]. simpl. by rewrite Es, responses_app.
Qed.

Lemma voice_get_field_ok data key w v w' :
  get_field data key w = (Ok v, w') ->
  w' = w /\ exists d, data = Some d /\ v = d !! key.
Proof. destruct data as [d |]; [| done]. intros [= <- <-]. eauto. Qed.

Lemma voice_subscript_ok data key w v w' :
  subscript data key w = (Ok v, w') ->
  w' = w /\ exists d, data = Some d /\ d !! key = Some v.
Proof.
  destruct data as [d |]; [| done]. intros E.
  apply getitem_ok in E as [-> E]. eauto.
Qed.

Lemma voice_text_field_ok data w q w' :
  text_field data w = (Ok q, w') -> w' = w.
Proof.
  unfold text_field. intros E. step_ok.
  match goal with E : get_field _ _ _ = _ |- _ =>
    apply voice_get_field_ok in E as (-> & d & -> & ->) end.
  destruct (d !! "text") as [[] |]; by inversion E.
Qed.

Lemma voice_decode_audio_ok v w b w' : decode_audio v w = (Ok b, w') -> w' = w.
Proof. destruct v; try done. unfold decode_audio, lift. by intros [= _ <-]. Qed.

Lemma voice_audio_text_ok data w q w' :
  audio_text websocket data w = (Ok q, w') ->
  responses (sent w') = responses (sent w).
Proof.
  unfold audio_text. intros E. repeat step_ok.
  repeat match goal with
  | E : subscript _ _ _ = _ |- _ => apply voice_subscript_ok in E as (-> & _)
  | E : decode_audio _ _ = _ |- _ => apply voice_decode_audio_ok in E as ->
  end.
  repeat step_ok.
  simpl. rewrite responses_app. simpl. by rewrite app_nil_r.
Qed.

(** What one pass through the loop body does when it returns: a language
    switch, a completed turn, or the reply to an unsupported type. *)
Lemma voice_iteration_ok f s w s' w' :
  iteration db websocket client_id f s w = (Ok s', w') ->
  (exists lang,
      s' = set_language lang s
      /\ responses (sent w') = responses (sent w))
  \/ (exists q r,
        s' = update_chat_history q r (personalize q s)
        /\ responses (sent w') = responses (sent w) ++ [r])
  \/ (s' = s /\ responses (sent w') = responses (sent w)).
Proof.
  unfold iteration. intros E. do 2 step_ok. step_ok.
  match goal with E : get_field _ _ _ = _ |- _ =>
    apply voice_get_field_ok in E as (-> & d & -> & ->) end.
  destruct (has_type _ "language_switch").
  { left. repeat step_ok.
    match goal with E : subscript _ _ _ = _ |- _ =>
      apply voice_subscript_ok in E as (-> & _) end.
    repeat step_ok.
    eexists. split; [done |]. simpl. rewrite responses_app. simpl.
    by rewrite app_nil_r. }
  destruct (has_type _ "text_query").
  { right. left. step_ok.
    match goal with E : text_field _ _ = _ |- _ =>
      apply voice_text_field_ok in E as -> end.
    apply voice_turn_ok in E as (r & -> & Er). eauto. }
  destruct (has_type _ "audio_query").
  { right. left. step_ok.
    match goal with E : audio_text _ _ _ = _ |- _ =>
      apply voice_audio_text_ok in E as Ea end.
    apply voice_turn_ok in E as (r & -> & Er). rewrite Ea in Er. eauto. }
  right. right. repeat step_ok. split; [done |]. simpl.
  rewrite responses_app. simpl. by rewrite app_nil_r.
Qed.

(** *** The registry during the loop *)

Lemma voice_keeps_respond t lang : keeps_others websocket (respond t lang).
Proof. unfold respond. destruct (audio_fields _). apply keeps_send_json. Qed.

Lemma voice_keeps_get_field data key : keeps_others websocket (get_field data key).
Proof. by destruct data. Qed.

Lemma voice_keeps_subscript data key : keeps_others websocket (subscript data key).
Proof. destruct data; [apply keeps_getitem | done]. Qed.

Lemma voice_keeps_decode_audio v : keeps_others websocket (decode_audio v).
Proof. by destruct v. Qed.

Lemma voice_keeps_text_field data : keeps_others websocket (text_field data).
Proof.
  unfold text_field. apply keeps_bind; [apply voice_keeps_get_field |].
  by intros [[] |].
Qed.

Lemma voice_keeps_audio_text data :
  keeps_others websocket (audio_text websocket data).
Proof.
  unfold audio_text.
  repeat first
    [ apply voice_keeps_subscript | apply voice_keeps_decode_audio
    | apply keeps_option_raise | apply keeps_send_json | apply keeps_ret
    | apply keeps_bind; [| intros ?] ].
Qed.

Lemma voice_keeps_turn q s : keeps_others websocket (turn db websocket client_id q s).
Proof.
  unfold turn.
  repeat first
    [ apply keeps_commit | apply keeps_with_generation | apply voice_keeps_respond
    | apply keeps_ret | apply keeps_try_except; [| intros ?]
    | apply keeps_bind; [| intros ?] ].
Qed.

Lemma voice_keeps_iteration f s :
  keeps_others websocket (iteration db websocket client_id f s).
Proof.
  unfold iteration.
  apply keeps_bind; [apply keeps_receive_json | intros data].
  apply keeps_bind; [apply voice_keeps_get_field | intros type].
  repeat match goal with |- keeps_others _ (if ?b then _ else _) =>
    destruct b end;
  repeat first
    [ apply voice_keeps_text_field | apply voice_keeps_audio_text | apply voice_keeps_turn
    | apply voice_keeps_subscript | apply keeps_commit | apply keeps_send_json
    | apply keeps_ret | apply keeps_bind; [| intros ?] ].
Qed.

(** *** History and name across a run *)

Lemma voice_chat_history_personalize q s :
  chat_history (personalize q s) = chat_history s.
Proof.
  unfold personalize. destruct (unset _); [| done].
  destruct (detect_user_name q) as [n |]; [| done].
  by destruct (Text.nonempty n).
Qed.

Lemma voice_main_loop_history frames before s w s' w' :
  chat_history s = last_n 10 (transcript before) ->
  main_loop db websocket client_id frames s w = (Awaiting s', w') ->
  exists turns,
    chat_history s' = last_n 10 (transcript (before ++ turns))
    /\ responses (sent w') = responses (sent w) ++ map snd turns.
Proof.
  apply serve_history. clear. intros f s w s' w' E.
  apply voice_iteration_ok in E
    as [(lang & -> & Er) | [(q & r & -> & Er) | (-> & Er)]]; auto.
  right. exists q, r. split; [| done]. intros before Hs.
  apply chat_history_update. by rewrite voice_chat_history_personalize.
Qed.

Lemma voice_personalize_named q s n :
  user_name s = Some n -> Text.nonempty n = true -> personalize q s = s.
Proof. unfold personalize, unset. by intros -> ->. Qed.

Lemma voice_personalize_nonempty q s :
  (forall n, user_name s = Some n -> Text.nonempty n = true) ->
  forall n, user_name (personalize q s) = Some n -> Text.nonempty n = true.
Proof.
  intros Hs n. unfold personalize. destruct (unset _); [| apply Hs].
  destruct (detect_user_name q) as [m |] eqn:Ed; [| apply Hs].
  destruct (Text.nonempty m) eqn:Em; [| apply Hs]. simpl. congruence.
Qed.

(** A stored name is a non-empty string, and a pass keeps a stored name. *)
Lemma voice_iteration_name f s w s' w' :
  iteration db websocket client_id f s w = (Ok s', w') ->
  (forall n, user_name s = Some n -> Text.nonempty n = true) ->
  (forall n, user_name s' = Some n -> Text.nonempty n = true)
  /\ (forall n, user_name s = Some n -> user_name s' = Some n).
Proof.
  intros Ei Hs.
  apply voice_iteration_ok in Ei
    as [(lang & -> & _) | [(q & r & -> & _) | (-> & _)]]; simpl.
  - done.
  - split; [by apply voice_personalize_nonempty |].
    intros n Hn. by rewrite (voice_personalize_named q s n); auto.
  - done.
Qed.

Lemma voice_main_loop_name frames s w s' w' :
  main_loop db websocket client_id frames s w = (Awaiting s', w') ->
  (forall n, user_name s = Some n -> Text.nonempty n = true) ->
  (forall n, user_name s' = Some n -> Text.nonempty n = true)
  /\ (forall n, user_name s = Some n -> user_name s' = Some n).
Proof.
  apply (serve_invariant _ _
           (fun s => forall n, user_name s = Some n -> Text.nonempty n = true)
           (fun s s' => forall n, user_name s = Some n -> user_name s' = Some n));
    [auto | auto |].
  clear. intros f s w s' w'. apply voice_iteration_name.
Qed.

(** *** From the endpoint into the loop *)

Lemma voice_endpoint_active frames w r w' :
  websocket_endpoint db websocket client_id frames w = (r, w') ->
  r <> Rejected -> (forall e, r <> Escaped e) ->
  exists chain w0,
    create_rag_chain db client_id = Ok chain
    /\ others websocket w0 = others websocket w
    /\ responses (sent w0) = responses (sent w) ++ [initial_greeting]
    /\ main_loop db websocket client_id frames (new_session chain) w0
       = (r, w').
Proof.
  unfold websocket_endpoint. intros E Hrej Hesc.
  destruct (create_rag_chain db client_id) as [chain | e].
  - destruct (bind _ _ w) as [[u | e] w0] eqn:Eg;
      [| inversion E; subst; by destruct (Hesc e)].
    exists chain, w0. split; [done |].
    apply bind_ok in Eg as (u1 & w1 & Ereg & Eresp).
    apply others_register in Ereg as [Ho Hsent].
    apply voice_respond_ok in Eresp as (a & b & ->). simpl.
    split; [exact Ho | split; [| exact E]].
    by rewrite responses_app, Hsent.
  - destruct (kind e);
      try (inversion E; subst; by destruct (Hesc e)).
    destruct (bind _ _ w) as [[u | e1] w0];
      inversion E; subst; [done | by destruct (Hesc e1)].
Qed.

End VoiceFacts.
(** ** The Choice handler *)

Section ChoiceFacts.
Import Py VectorStore Session Wire History Registry NameDetection Choice.
Context `{Chroma} `{ChatModel} `{ChoiceRag.LangChain} `{Runtime} `{Choice.Speech}.
Variables (db : chroma_db) (websocket : conn) (client_id : string).
Implicit Types (w : world) (l : locals).

Lemma choice_subscript_ok data key w v w' :
  subscript data key w = (Ok v, w') ->
  w' = w /\ exists d, data = Some d /\ d !! key = Some v.
Proof.
  destruct data as [d |]; [| done]. intros E.
  apply getitem_ok in E as [-> E]. eauto.
Qed.

Lemma choice_decode_audio_ok v w b w' :
  decode_audio v w = (Ok b, w') -> w' = w.
Proof. destruct v; try done. unfold decode_audio, lift. by intros [= _ <-]. Qed.

Lemma choice_answer_sent {A} (m : M (list ChoiceRag.prompt_inputs) A) w r w' :
  with_generation m w = (r, w') ->
  sent w' = sent w /\ active_sessions w' = active_sessions w.
Proof.
  unfold with_generation. destruct (m _) as [a calls]. by intros [= _ <-].
Qed.

(** The session an audio turn leaves, given the value the local
    [user_name] holds when the turn tests it. *)
Lemma choice_audio_branch_ok data l w l' w' :
  audio_branch db websocket client_id data l w = (Ok l', w') ->
  exists q r detected,
    (if unset (user_name (session_data l))
     then detected = detect_user_name q
     else user_name_var l = Some detected)
    /\ session_data l'
       = update_chat_history q r
           (if unset detected then session_data l
            else set_user_name detected (session_data l))
    /\ user_name_var l' = Some detected
    /\ responses (sent w') = responses (sent w) ++ [r].
Proof.
  unfold audio_branch. intros E. repeat step_ok.
  repeat match goal with
  | E : subscript _ _ _ = _ |- _ => apply choice_subscript_ok in E as (-> & _)
  | E : decode_audio _ _ = _ |- _ => apply choice_decode_audio_ok in E as ->
  end.
  repeat step_ok.
  match type of E with context [transcribe_audio ?a] =>
    set (q := transcribe_audio a) in * end.
  destruct (if unset (user_name (session_data l)) then _ else _)
    as [detected |] eqn:Evar; [| done].
  repeat step_ok.
  match goal with E : with_generation _ _ = _ |- _ =>
    apply choice_answer_sent in E as [Es _] end.
  eexists q, _, detected. split; [| split; [done | split; [done |]]].
  - destruct (unset (user_name (session_data l))); congruence.
  - simpl. rewrite responses_app, Es. simpl.
    rewrite responses_app. simpl. by rewrite app_nil_r.
Qed.

(** What one pass through the loop body does when it returns: a language
    switch, nothing at all (a [text_query] or an unknown type), or a
    completed audio turn. *)
Lemma choice_iteration_ok f l w l' w' :
  iteration db websocket client_id f l w = (Ok l', w') ->
  (exists lang,
      session_data l' = set_language lang (session_data l)
      /\ user_name_var l' = user_name_var l
      /\ responses (sent w') = responses (sent w))
  \/ (l' = l /\ w' = w)
  \/ (exists q r detected,
        (if unset (user_name (session_data l))
         then detected = detect_user_name q
         else user_name_var l = Some detected)
        /\ session_data l'
           = update_chat_history q r
               (if unset detected then session_data l
                else set_user_name detected (session_data l))
        /\ user_name_var l' = Some detected
        /\ responses (sent w') = responses (sent w) ++ [r]).
Proof.
  unfold iteration. intros E. do 3 step_ok.
  match goal with E : subscript _ _ _ = _ |- _ =>
    apply choice_subscript_ok in E as (-> & d & -> & Etype) end.
  destruct (is_str _ "language_switch").
  { left. repeat step_ok.
    match goal with E : subscript _ _ _ = _ |- _ =>
      apply choice_subscript_ok in E as (-> & _) end.
    repeat step_ok.
    eexists. split; [done | split; [done |]]. simpl.
    rewrite responses_app. simpl. by rewrite app_nil_r. }
  destruct (is_str _ "text_query").
  { right. left. repeat step_ok.
    match goal with E : subscript _ _ _ = _ |- _ =>
      apply choice_subscript_ok in E as (-> & _) end.
    by repeat step_ok. }
  destruct (is_str _ "audio_query").
  { right. right. by apply choice_audio_branch_ok in E. }
  right. left. by repeat step_ok.
Qed.

(** *** The registry during the loop *)

Lemma choice_keeps_subscript data key :
  keeps_others websocket (subscript data key).
Proof. destruct data; [apply keeps_getitem | done]. Qed.

Lemma choice_keeps_decode_audio v : keeps_others websocket (decode_audio v).
Proof. by destruct v. Qed.

Lemma choice_keeps_audio_branch data l :
  keeps_others websocket (audio_branch db websocket client_id data l).
Proof.
  unfold audio_branch.
  repeat first
    [ apply choice_keeps_subscript | apply choice_keeps_decode_audio
    | apply keeps_option_raise | apply keeps_send_json
    | match goal with |- keeps_others _ (match ?x with _ => _ end) =>
        destruct x end
    | apply keeps_raise | apply keeps_commit | apply keeps_with_generation
    | apply keeps_ret | apply keeps_bind; [| intros ?] ].
Qed.

Lemma choice_keeps_iteration f l :
  keeps_others websocket (iteration db websocket client_id f l).
Proof.
  unfold iteration.
  apply keeps_bind; [apply keeps_receive_json | intros data].
  apply keeps_bind; [apply choice_keeps_subscript | intros type].
  repeat match goal with |- keeps_others _ (if ?b then _ else _) =>
    destruct b end;
  repeat first
    [ apply choice_keeps_audio_branch | apply choice_keeps_subscript
    | apply keeps_commit | apply keeps_send_json | apply keeps_ret
    | apply keeps_bind; [| intros ?] ].
Qed.

(** *** History and name across a run *)

Lemma choice_main_loop_history frames before l w l' w' :
  chat_history (session_data l) = last_n 10 (transcript before) ->
  main_loop db websocket client_id frames l w = (Awaiting l', w') ->
  exists turns,
    chat_history (session_data l')
    = last_n 10 (transcript (before ++ turns))
    /\ responses (sent w') = responses (sent w) ++ map snd turns.
Proof.
  apply (serve_history _ _ (fun l => chat_history (session_data l))).
  clear. intros f l w l' w' E.
  apply choice_iteration_ok in E
    as [(lang & -> & _ & Er) | [(-> & ->) | (q & r & d & _ & -> & _ & Er)]];
    auto.
  right. exists q, r. split; [| done]. intros before Hs.
  apply chat_history_update. by destruct (unset d).
Qed.

(** While a name is stored it is a non-empty string and the local
    [user_name] holds the same string; a pass keeps a stored name. *)
Lemma choice_iteration_name f l w l' w' :
  iteration db websocket client_id f l w = (Ok l', w') ->
  (forall n, user_name (session_data l) = Some n ->
             Text.nonempty n = true /\ user_name_var l = Some (Some n)) ->
  (forall n, user_name (session_data l') = Some n ->
             Text.nonempty n = true /\ user_name_var l' = Some (Some n))
  /\ (forall n, user_name (session_data l) = Some n ->
                user_name (session_data l') = Some n).
Proof.
  intros Ei Hl.
  apply choice_iteration_ok in Ei
    as [(lang & -> & -> & _) | [(-> & ->) | (q & r & d & Hd & -> & -> & _)]];
    [done | done |].
  cbn [user_name update_chat_history set_chat_history].
  destruct (user_name (session_data l)) as [n |] eqn:En.
  - destruct (Hl n eq_refl) as [Hn Hvar]. unfold unset in Hd at 1.
    rewrite Hn in Hd. simpl in Hd. rewrite Hvar in Hd.
    injection Hd as <-. unfold unset. rewrite Hn. simpl.
    split; [| done]. by intros m [= <-].
  - simpl in Hd. subst d. split; [| done].
    destruct (detect_user_name q) as [m |] eqn:Ed; simpl.
    + rewrite (detect_user_name_nonempty _ _ Ed). simpl.
      intros m' [= <-]. eauto using detect_user_name_nonempty.
    + by rewrite En.
Qed.

Lemma choice_main_loop_name frames l w l' w' :
  main_loop db websocket client_id frames l w = (Awaiting l', w') ->
  (forall n, user_name (session_data l) = Some n ->
             Text.nonempty n = true /\ user_name_var l = Some (Some n)) ->
  (forall n, user_name (session_data l') = Some n ->
             Text.nonempty n = true /\ user_name_var l' = Some (Some n))
  /\ (forall n, user_name (session_data l) = Some n ->
                user_name (session_data l') = Some n).
Proof.
  apply (serve_invariant _ _
           (fun l => forall n, user_name (session_data l) = Some n ->
                      Text.nonempty n = true
                      /\ user_name_var l = Some (Some n))
           (fun l l' => forall n, user_name (session_data l) = Some n ->
                         user_name (session_data l') = Some n));
    [auto | auto |].
  clear. intros f l w l' w'. apply choice_iteration_name.
Qed.

(** *** From the endpoint into the loop *)

Lemma choice_endpoint_active frames w r w' :
  websocket_endpoint db websocket client_id frames w = (r, w') ->
  r <> Rejected -> (forall e, r <> Escaped e) ->
  exists chain w0,
    create_rag_chain db client_id = Ok chain
    /\ others websocket w0 = others websocket w
    /\ responses (sent w0) = responses (sent w) ++ [initial_greeting]
    /\ main_loop db websocket client_id frames
         {| session_data := new_session chain; user_name_var := None |} w0
       = (r, w').
Proof.
  unfold websocket_endpoint. intros E Hrej Hesc.
  destruct (create_rag_chain db client_id) as [chain | e].
  - destruct (bind _ _ w) as [[u | e] w0] eqn:Eg;
      [| inversion E; subst; by destruct (Hesc e)].
    exists chain, w0. split; [done |].
    apply bind_ok in Eg as (u1 & w1 & Ereg & Eresp).
    apply others_register in Ereg as [Ho Hsent].
    apply send_json_ok in Eresp as ->. simpl.
    split; [exact Ho | split; [| exact E]].
    by rewrite responses_app, Hsent.
  - destruct (kind e);
      try (inversion E; subst; by destruct (Hesc e)).
    destruct (bind _ _ w) as [[u | e1] w0];
      inversion E; subst; [done | by destruct (Hesc e1)].
Qed.

End ChoiceFacts.

(** ** Single steps of the Voice handler *)

Section VoiceSteps.
Import Py VectorStore Session Wire History Registry NameDetection Voice Inbound.
Context `{Chroma} `{ChatModel} `{VoiceRag.Gemini} `{Runtime} `{Voice.Speech}.
Variables (db : chroma_db) (websocket : conn) (client_id : string).
Implicit Types (w : world) (s : session).

Lemma voice_endpoint_app frames more w :
  websocket_endpoint db websocket client_id (frames ++ more) w
  = match websocket_endpoint db websocket client_id frames w with
    | (Awaiting s1, w1) => main_loop db websocket client_id more s1 w1
    | stopped => stopped
    end.
Proof.
  unfold websocket_endpoint.
  destruct (create_rag_chain db client_id) as [chain | e].
  - destruct (bind _ _ w) as [[u | e] w0]; [| done].
    unfold main_loop. apply serve_app.
  - destruct (kind e); try done. by destruct (bind _ _ w) as [[u | e1] w0].
Qed.

(** A frame that is not a JSON object, a disconnect or an undecodable
    frame makes the loop body raise. *)
Lemma voice_iteration_raises f s w :
  (forall data, f <> Json data) ->
  exists e, iteration db websocket client_id f s w = (Raise e, w)
            /\ (f = Disconnect -> e = Exn WebSocketDisconnect "").
Proof.
  intros Hf. destruct f as [data | | |]; [by destruct (Hf data) | | |];
    eexists; (split; [reflexivity | done]).
Qed.

(** The [language_switch] branch. *)
Lemma voice_iteration_language_switch data s w s' w' :
  data !! "type" = Some (JStr "language_switch") ->
  iteration db websocket client_id (Json data) s w = (Ok s', w') ->
  exists lang, data !! "language" = Some lang /\ s' = set_language lang s.
Proof.
  intros Ht. unfold iteration, bind at 1 2. simpl. rewrite Ht. simpl.
  intros E. repeat step_ok.
  match goal with E : getitem _ _ _ = _ |- _ =>
    apply getitem_ok in E as [-> El] end.
  repeat step_ok. eauto.
Qed.

(** A message of no known type: the error reply, and nothing else. *)
Lemma voice_iteration_unsupported data s w :
  (forall v, data !! "type" = Some v -> known_type v = false) ->
  iteration db websocket client_id (Json data) s w
  = match send_outcome (sent w) unsupported with
    | Some e => (Raise e, w)
    | None =>
        (Ok s, World (active_sessions w) (sent w ++ [unsupported])
                     (generated w) (close_code w))
    end.
Proof.
  intros Ht. unfold iteration, bind at 1 2. simpl.
  assert (Hk : forall k, In k ["language_switch"; "text_query"; "audio_query"]
                         -> has_type (data !! "type") k = false).
  { intros k Hin. destruct (data !! "type") as [v |] eqn:Ev; [| done].
    specialize (Ht v eq_refl). unfold known_type in Ht. simpl.
    apply orb_false_iff in Ht as [Ht Ha]. apply orb_false_iff in Ht as [Hl Hq].
    simpl in Hin. destruct Hin as [<- | [<- | [<- | []]]]; done. }
  rewrite !Hk by (simpl; auto).
  unfold bind, send_json. by destruct (send_outcome _ _).
Qed.

(** A [text_query]: the stripped text goes through one turn. *)
Lemma voice_iteration_text_query t s w :
  iteration db websocket client_id (text_query t) s w
  = turn db websocket client_id (Text.strip t) s w.
Proof. reflexivity. Qed.

(** A turn whose response the transport accepts, in full. *)
Lemma voice_turn_accepted q s w :
  let s1 := personalize q s in
  let w1 := with_sessions (alter (fun _ => s1) websocket) w in
  let '(answer, calls) :=
    VoiceRag.process_query db q s1 client_id (rag_chain s1) (generated w1) in
  let response_text :=
    match answer with Ok t => t | Raise _ => rag_failure end in
  let '(audio_base64, audio_url) :=
    audio_fields (generate_speech_audio response_text (language s1)) in
  let reply := Response response_text audio_base64 audio_url in
  let s2 := update_chat_history q response_text s1 in
  send_outcome (sent w) reply = None ->
  turn db websocket client_id q s w
  = (Ok s2,
     World (alter (fun _ => s2) websocket (active_sessions w1))
           (sent w ++ [reply]) calls (close_code w)).
Proof.
  intros s1 w1.
  destruct (VoiceRag.process_query _ _ _ _ _ _) as [answer calls] eqn:Ea.
  intros response_text.
  destruct (audio_fields _) as [audio_base64 audio_url] eqn:Ef.
  intros reply s2 Hsend.
  unfold turn, bind, commit, modify, try_except, with_generation, respond.
  fold s1. fold w1. rewrite Ea.
  destruct answer as [t | e]; simpl; subst response_text; rewrite Ef;
    unfold send_json; simpl; fold reply; by rewrite Hsend.
Qed.
End VoiceSteps.

(** ** Single steps of the Choice handler *)

Section ChoiceSteps.
Import Py VectorStore Session Wire History Registry NameDetection Choice Inbound.
Context `{Chroma} `{ChatModel} `{ChoiceRag.LangChain} `{Runtime} `{Choice.Speech}.
Variables (db : chroma_db) (websocket : conn) (client_id : string).
Implicit Types (w : world) (l : locals).

Lemma choice_endpoint_app frames more w :
  websocket_endpoint db websocket client_id (frames ++ more) w
  = match websocket_endpoint db websocket client_id frames w with
    | (Awaiting l1, w1) => main_loop db websocket client_id more l1 w1
    | stopped => stopped
    end.
Proof.
  unfold websocket_endpoint.
  destruct (create_rag_chain db client_id) as [chain | e].
  - destruct (bind _ _ w) as [[u | e] w0]; [| done].
    unfold main_loop. apply serve_app.
  - destruct (kind e); try done. by destruct (bind _ _ w) as [[u | e1] w0].
Qed.

Lemma choice_iteration_raises f l w :
  (forall data, f <> Json data) ->
  exists e, iteration db websocket client_id f l w = (Raise e, w)
            /\ (f = Disconnect -> e = Exn WebSocketDisconnect "").
Proof.
  intros Hf. destruct f as [data | | |]; [by destruct (Hf data) | | |];
    eexists; (split; [reflexivity | done]).
Qed.

(** The [language_switch] branch. *)
Lemma choice_iteration_language_switch data l w l' w' :
  data !! "type" = Some (JStr "language_switch") ->
  iteration db websocket client_id (Json data) l w = (Ok l', w') ->
  exists lang,
    data !! "language" = Some lang
    /\ session_data l' = set_language lang (session_data l).
Proof.
  intros Ht. unfold iteration, bind at 1 2. simpl.
  unfold getitem at 1. rewrite Ht. simpl.
  intros E. repeat step_ok.
  match goal with E : getitem _ _ _ = _ |- _ =>
    apply getitem_ok in E as [-> El] end.
  repeat step_ok. eauto.
Qed.

(** A [text_query] is read and dropped: no reply, no call to the
    conversation engine, no history entry. *)
Lemma choice_iteration_text_query t l w :
  iteration db websocket client_id (text_query t) l w = (Ok l, w).
Proof. reflexivity. Qed.

(** A message that carries a type the handler does not know is
    skipped in silence. *)
Lemma choice_iteration_unsupported data v l w :
  data !! "type" = Some v -> known_type v = false ->
  iteration db websocket client_id (Json data) l w = (Ok l, w).
Proof.
  intros Ht Hk. unfold iteration, bind at 1 2. simpl.
  unfold getitem at 1. rewrite Ht. simpl.
  unfold known_type in Hk.
  apply orb_false_iff in Hk as [Hk Ha]. apply orb_false_iff in Hk as [Hl Hq].
  by rewrite Hl, Hq, Ha.
Qed.

(** A message without a type field ends the connection. *)
Lemma choice_iteration_untyped data l w :
  data !! "type" = None ->
  iteration db websocket client_id (Json data) l w
  = (Raise (Exn KeyError "type"), w).
Proof.
  intros Ht. unfold iteration, bind at 1 2. simpl.
  unfold getitem at 1. by rewrite Ht.
Qed.
End ChoiceSteps.

(** ** Runs of a connection, for either backend *)

Section ConnectFacts.
Import Py VectorStore Session Wire History Registry Backend.
Context `{Chroma} `{ChatModel} `{ChoiceRag.LangChain} `{VoiceRag.Gemini}
        `{Runtime} `{Choice.Speech} `{Voice.Speech}.
Variable db : chroma_db.
Implicit Types (b : backend) (reg : gmap conn session).

(** A connection that is waiting or closed went through the handshake
    and the greeting, and its loop ran from the fresh session. *)
Lemma connect_history b ws cid reg frames s :
  final (connect db b ws cid reg frames) = Awaiting s ->
  exists turns,
    chat_history s = last_n 10 (transcript turns)
    /\ responses (outbox (connect db b ws cid reg frames))
       = greeting b :: map snd turns.
Proof.
  destruct b; unfold connect.
  - destruct (Choice.websocket_endpoint _ _ _ _ _) as [r w'] eqn:E. simpl.
    destruct r as [| e | l | e]; try done. intros [= <-].
    apply choice_endpoint_active in E as (chain & w0 & _ & _ & Hg & E);
      [| done | done].
    apply (choice_main_loop_history _ _ _ _ []) in E as (turns & Hh & Hr);
      [| done].
    exists turns. by rewrite Hh, Hr, Hg.
  - destruct (Voice.websocket_endpoint _ _ _ _ _) as [r w'] eqn:E. simpl.
    intros ->.
    apply voice_endpoint_active in E as (chain & w0 & _ & _ & Hg & E);
      [| done | done].
    apply (voice_main_loop_history _ _ _ _ []) in E as (turns & Hh & Hr);
      [| done].
    exists turns. by rewrite Hh, Hr, Hg.
Qed.

Lemma connect_closed b ws cid reg frames e :
  final (connect db b ws cid reg frames) = Closed e ->
  registry (connect db b ws cid reg frames) !! ws = None
  /\ delete ws (registry (connect db b ws cid reg frames)) = delete ws reg.
Proof.
  destruct b; unfold connect.
  - destruct (Choice.websocket_endpoint _ _ _ _ _) as [r w'] eqn:E. simpl.
    destruct r as [| e1 | l | e1]; try done. intros [= <-].
    apply choice_endpoint_active in E as (chain & w0 & _ & Ho & _ & E);
      [| done | done].
    split; [by apply serve_closed in E |].
    apply serve_others in E; [| apply choice_keeps_iteration].
    unfold others in *. simpl in *. congruence.
  - destruct (Voice.websocket_endpoint _ _ _ _ _) as [r w'] eqn:E. simpl.
    intros ->.
    apply voice_endpoint_active in E as (chain & w0 & _ & Ho & _ & E);
      [| done | done].
    split; [by apply serve_closed in E |].
    apply serve_others in E; [| apply voice_keeps_iteration].
    unfold others in *. simpl in *. congruence.
Qed.

(** A stored name is a non-empty string. *)
Lemma connect_named b ws cid reg frames s n :
  final (connect db b ws cid reg frames) = Awaiting s ->
  user_name s = Some n -> Text.nonempty n = true.
Proof.
  destruct b; unfold connect.
  - destruct (Choice.websocket_endpoint _ _ _ _ _) as [r w'] eqn:E. simpl.
    destruct r as [| e | l | e]; try done. intros [= <-].
    apply choice_endpoint_active in E as (chain & w0 & _ & _ & _ & E);
      [| done | done].
    apply choice_main_loop_name in E as [Hn _]; [| done].
    intros Hs. by destruct (Hn n Hs).
  - destruct (Voice.websocket_endpoint _ _ _ _ _) as [r w'] eqn:E. simpl.
    intros ->.
    apply voice_endpoint_active in E as (chain & w0 & _ & _ & _ & E);
      [| done | done].
    apply voice_main_loop_name in E as [Hn _]; [| done]. apply Hn.
Qed.

(** Once stored, the name outlives every further frame. *)
Lemma connect_name_kept b ws cid reg frames more s s' n :
  final (connect db b ws cid reg frames) = Awaiting s ->
  user_name s = Some n ->
  final (connect db b ws cid reg (frames ++ more)) = Awaiting s' ->
  user_name s' = Some n.
Proof.
  destruct b; unfold connect.
  - rewrite choice_endpoint_app.
    destruct (Choice.websocket_endpoint _ _ _ frames _) as [r w1] eqn:E.
    simpl. destruct r as [| e | l | e]; try done. intros [= <-] Hn.
    apply choice_endpoint_active in E as (chain & w0 & _ & _ & _ & E);
      [| done | done].
    apply choice_main_loop_name in E as [Hl _]; [| done].
    destruct (Choice.main_loop _ _ _ more l w1) as [r2 w2] eqn:E2. simpl.
    destruct r2 as [| e | l2 | e]; try done. intros [= <-].
    apply choice_main_loop_name in E2 as [_ Hk]; auto.
  - rewrite voice_endpoint_app.
    destruct (Voice.websocket_endpoint _ _ _ frames _) as [r w1] eqn:E.
    simpl. intros -> Hn.
    apply voice_endpoint_active in E as (chain & w0 & _ & _ & _ & E);
      [| done | done].
    apply voice_main_loop_name in E as [Hl _]; [| done].
    destruct (Voice.main_loop _ _ _ more s w1) as [r2 w2] eqn:E2. simpl.
    intros ->. apply voice_main_loop_name in E2 as [_ Hk]; auto.
Qed.

(** A frame the loop body cannot read closes a waiting connection. *)
Lemma connect_closes b ws cid reg frames s f more :
  final (connect db b ws cid reg frames) = Awaiting s ->
  (forall data, f <> Json data) ->
  exists e,
    final (connect db b ws cid reg (frames ++ f :: more)) = Closed e
    /\ (f = Disconnect -> e = Exn WebSocketDisconnect "").
Proof.
  destruct b; unfold connect.
  - rewrite choice_endpoint_app.
    destruct (Choice.websocket_endpoint _ _ _ frames _) as [r w1] eqn:E.
    simpl. destruct r as [| e | l | e]; try done. intros _ Hf.
    destruct (choice_iteration_raises db ws cid f l w1 Hf) as (e & Ei & He).
    exists e. unfold Choice.main_loop. simpl. by rewrite Ei.
  - rewrite voice_endpoint_app.
    destruct (Voice.websocket_endpoint _ _ _ frames _) as [r w1] eqn:E.
    simpl. intros -> Hf.
    destruct (voice_iteration_raises db ws cid f s w1 Hf) as (e & Ei & He).
    exists e. unfold Voice.main_loop. simpl. by rewrite Ei.
Qed.

(** A language switch leaves the history as it was. *)
Lemma connect_language_switch b ws cid reg frames data s s' :
  final (connect db b ws cid reg frames) = Awaiting s ->
  data !! "type" = Some (JStr "language_switch") ->
  final (connect db b ws cid reg (frames ++ [Json data])) = Awaiting s' ->
  chat_history s' = chat_history s /\ user_name s' = user_name s
  /\ data !! "language" = Some (language s').
Proof.
  destruct b; unfold connect.
  - rewrite choice_endpoint_app.
    destruct (Choice.websocket_endpoint _ _ _ frames _) as [r w1] eqn:E.
    simpl. destruct r as [| e | l | e]; try done. intros [= <-] Ht.
    unfold Choice.main_loop. simpl.
    destruct (Choice.iteration _ _ _ _ l w1) as [[l2 | e] w2] eqn:Ei;
      [| done].
    simpl. intros [= <-].
    apply choice_iteration_language_switch in Ei as (lang & Hl & ->);
      [| done].
    done.
  - rewrite voice_endpoint_app.
    destruct (Voice.websocket_endpoint _ _ _ frames _) as [r w1] eqn:E.
    simpl. intros -> Ht. unfold Voice.main_loop. simpl.
    destruct (Voice.iteration _ _ _ _ s w1) as [[s2 | e] w2] eqn:Ei;
      [| done].
    simpl. intros [= <-].
    apply voice_iteration_language_switch in Ei as (lang & Hl & ->);
      [| done].
    done.
Qed.
(** The greeting is sent after the session is registered and before the
    guarded loop is entered: if the transport refuses it, the exception
    leaves the handler and the entry stays in the registry. *)
Lemma greeting_failure_keeps_entry b ws cid reg frames chain e :
  create_rag_chain db cid = Ok chain ->
  (forall m, send_outcome [] m = Some e) ->
  final (connect db b ws cid reg frames) = Escaped e
  /\ registry (connect db b ws cid reg frames) !! ws
     = Some (Voice.new_session chain).
Proof.
  intros Hchain Hsend.
  destruct b; unfold connect, Choice.websocket_endpoint,
    Voice.websocket_endpoint; rewrite Hchain;
    unfold bind, register, modify, Voice.respond; simpl.
  - unfold send_json. simpl. rewrite Hsend. simpl.
    split; [done |]. apply lookup_insert_eq.
  - destruct (Voice.audio_fields _) as [a u].
    unfold send_json. simpl. rewrite Hsend. simpl.
    split; [done |]. apply lookup_insert_eq.
Qed.
End ConnectFacts.

(** ** The turns of a run *)

Section TurnFacts.
Import Py VectorStore Session Wire History Registry Backend Turns.
Context `{Chroma} `{ChatModel} `{ChoiceRag.LangChain} `{VoiceRag.Gemini}
        `{Runtime} `{Choice.Speech} `{Voice.Speech}.
Variable db : chroma_db.
Implicit Types (b : backend) (reg : gmap conn session).





End TurnFacts.

(** ** The session protocol *)

Section Protocol.
Import Py VectorStore Session Wire History Registry Backend Inbound.
Context `{Chroma} `{ChatModel} `{ChoiceRag.LangChain} `{VoiceRag.Gemini}
        `{Runtime} `{Choice.Speech} `{Voice.Speech}.
Variable db : chroma_db.
Implicit Types (b : backend) (reg : gmap conn session).

(** The session a connection starts from. *)
Lemma connect_handshake b ws cid reg s :
  final (connect db b ws cid reg []) = Awaiting s ->
  user_name s = None /\ language s = JStr "en" /\ chat_history s = [].
Proof.
  destruct b; unfold connect.
  - destruct (Choice.websocket_endpoint _ _ _ _ _) as [r w'] eqn:E. simpl.
    destruct r as [| e | l | e]; try done. intros [= <-].
    apply choice_endpoint_active in E as (chain & w0 & _ & _ & _ & E);
      [| done | done].
    by injection E as <- _.
  - destruct (Voice.websocket_endpoint _ _ _ _ _) as [r w'] eqn:E. simpl.
    intros ->.
    apply voice_endpoint_active in E as (chain & w0 & _ & _ & _ & E);
      [| done | done].
    by injection E as <- _.
Qed.


(** C10.  Whenever a connection of either backend waits for its next
    message, its history has even length and alternates roles: the entry
    at an even index is the user's, the entry at an odd index the
    assistant's.  The handshake leaves it empty and a language switch
    leaves it as it was. *)
Theorem history_shape b ws cid reg frames s :
  final (connect db b ws cid reg frames) = Awaiting s ->
  well_shaped (chat_history s) = true
  /\ Nat.Even (List.length (chat_history s))
  /\ (forall i e, chat_history s !! i = Some e -> e.1 = role_at i)
  /\ (frames = [] -> chat_history s = [])
  /\ (forall data s',
        data !! "type" = Some (JStr "language_switch") ->
        final (connect db b ws cid reg (frames ++ [Json data])) = Awaiting s' ->
        chat_history s' = chat_history s).
Proof.
  intros E. pose proof E as (turns & Hh & Hr)%connect_history.
  assert (Hw : well_shaped (chat_history s) = true).
  { change 10 with (2 * 5) in Hh. rewrite last_n_transcript in Hh.
    rewrite Hh. apply well_shaped_transcript. }
  split; [done |]. split; [by apply well_shaped_even |].
  split; [intros i e; by apply well_shaped_lookup |]. split.
  - intros ->. by apply connect_handshake in E as (_ & _ & ->).
  - intros data s' Ht E'.
    by destruct (connect_language_switch _ _ _ _ _ _ _ _ _ E Ht E').
Qed.

(** C6.  When a connection of either backend is closed, by a disconnect
    or by any exception in its loop, the registry has no entry for it;
    if it had none before the connection was accepted, the registry and
    its size are what they were then.  A waiting connection does close on
    a disconnect and on any frame its loop cannot read. *)
Theorem cleanup_invariant b ws cid reg frames :
  (forall e,
      final (connect db b ws cid reg frames) = Closed e ->
      registry (connect db b ws cid reg frames) !! ws = None
      /\ (reg !! ws = None ->
          registry (connect db b ws cid reg frames) = reg
          /\ size (registry (connect db b ws cid reg frames)) = size reg))
  /\ (forall s f more,
        final (connect db b ws cid reg frames) = Awaiting s ->
        (forall data, f <> Json data) ->
        exists e,
          final (connect db b ws cid reg (frames ++ f :: more)) = Closed e
          /\ (f = Disconnect -> e = Exn WebSocketDisconnect "")).
Proof.
  split.
  - intros e E. apply connect_closed in E as [Hgone Hothers].
    split; [done |]. intros Hfresh.
    rewrite (delete_id _ _ Hgone), (delete_id _ _ Hfresh) in Hothers.
    by rewrite Hothers.
  - intros s f more. apply connect_closes.
Qed.

(** C7.  In a session of either backend, a name that has been stored
    stays stored, unchanged, over every further frame; on such a session
    the personalization step changes nothing, whatever the query says. *)
Theorem first_write_wins b ws cid reg frames more s s' n :
  final (connect db b ws cid reg frames) = Awaiting s ->
  user_name s = Some n ->
  final (connect db b ws cid reg (frames ++ more)) = Awaiting s' ->
  user_name s' = Some n
  /\ forall q, Voice.personalize q s' = s'.
Proof.
  intros E Hn E'.
  pose proof (connect_name_kept db _ _ _ _ _ _ _ _ _ E Hn E') as Hn'.
  split; [done |]. intros q.
  eauto using voice_personalize_named, connect_named.
Qed.

(** C3.  The Choice handler reads a [text_query] and does nothing with
    it: no response is sent, the conversation engine is not invoked and
    the history is not extended, whatever the text.  The Voice handler
    runs one turn on the stripped text. *)
Theorem text_query_dropped_by_choice ws cid t l w s w' :
  Choice.iteration db ws cid (text_query t) l w = (Ok l, w)
  /\ Voice.iteration db ws cid (text_query t) s w'
     = Voice.turn db ws cid (Text.strip t) s w'.
Proof. split; [apply choice_iteration_text_query | done]. Qed.

(** C8, as amended.  A message whose type is none of the three known
    ones leaves the connection open and the session as it was.  The
    Voice handler replies with the "unsupported type" error (when the
    transport takes it) and then treats the following frames, a
    [text_query] among them, as it would have otherwise; the Choice
    handler sends no reply to a message that carries a type. *)
Theorem unsupported_type_resilience data more :
  (forall v, data !! "type" = Some v -> known_type v = false) ->
  (forall ws cid s w,
      send_outcome (sent w) Voice.unsupported = None ->
      let w1 := World (active_sessions w) (sent w ++ [Voice.unsupported])
                      (generated w) (close_code w) in
      Voice.main_loop db ws cid (Json data :: more) s w
      = Voice.main_loop db ws cid more s w1
      /\ forall t,
           Voice.iteration db ws cid (text_query t) s w1
           = Voice.turn db ws cid (Text.strip t) s w1)
  /\ (forall ws cid l w,
        is_Some (data !! "type") ->
        Choice.main_loop db ws cid (Json data :: more) l w
        = Choice.main_loop db ws cid more l w).
Proof.
  intros Hdata. split.
  - intros ws cid s w Hsend w1. split; [| done].
    unfold Voice.main_loop. simpl.
    by rewrite voice_iteration_unsupported, Hsend.
  - intros ws cid l w [v Hv]. unfold Choice.main_loop. simpl.
    by rewrite (choice_iteration_unsupported _ _ _ data v) by auto.
Qed.
End Protocol.

(** ** Query processing *)

Section Processing.
Import Py VectorStore Session Backend.
Context `{Chroma} `{ChoiceRag.LangChain} `{VoiceRag.Gemini}.
Implicit Types (db : chroma_db) (s : session).

Lemma language_instruction_str code :
  ChoiceRag.language_instruction (JStr code) = Ok (language_name code).
Proof.
  unfold ChoiceRag.language_instruction, language_name.
  by repeat case_bool_decide.
Qed.


(** C9, as amended.  In the Choice backend the language instruction that
    [process_query] passes into generation is the session's language code
    taken through the mapping en to "English", hi to "Hindi", anything
    else to "English", and the mapping raises no error on any code.  The
    Voice backend's [process_query] does not read the session's language:
    its answer and its request to generation are the same for every
    language. *)
Theorem language_instruction_mapping code :
  ChoiceRag.language_instruction (JStr code) = Ok (language_name code)
  /\ language_name "en" = "English"
  /\ language_name "hi" = "Hindi"
  /\ (code <> "en" -> code <> "hi" -> language_name code = "English")
  /\ (forall db q s client_id chain calls r calls',
        language s = JStr code ->
        ChoiceRag.process_query db q s client_id chain calls = (r, calls') ->
        calls' = calls
        \/ exists inputs,
             calls' = calls ++ [inputs]
             /\ ChoiceRag.ci_language_instruction
                  (ChoiceRag.pi_language_instruction inputs)
                = language_name code)
  /\ (forall db q s client_id chain calls lang,
        VoiceRag.process_query db q (set_language lang s) client_id chain calls
        = VoiceRag.process_query db q s client_id chain calls).
Proof.
  split; [apply language_instruction_str |].
  split; [done |]. split; [done |]. split.
  { intros Hen Hhi. unfold language_name. by repeat case_bool_decide. }
  split; [| done].
  intros db q s client_id chain calls r calls' Hlang.
  unfold ChoiceRag.process_query, ChoiceRag.rag_chain_invoke, bind, lift.
  rewrite Hlang, language_instruction_str.
  destruct (ChoiceRag.retriever_input _) as [text | e];
    [| intros [= _ <-]; by left].
  destruct (get_relevant_documents _ _ _) as [docs | e];
    [| intros [= _ <-]; by left].
  intros [= _ <-]. right. eexists. split; [reflexivity | done].
Qed.
End Processing.

(** ** The properties on example connections *)

Section Examples.
Import Py VectorStore Session Wire History Registry Backend Inbound Scenario.
#[local] Existing Instances
  Demo.chroma Demo.chat_model Demo.lang_chain Demo.gemini Demo.runtime
  Demo.choice_speech Demo.voice_speech.

(** Ingesting a payroll document for "globex" changes nothing for "acme". *)
Lemma tenant_isolation_acme_globex :
  let db' := (load_and_embed_documents "globex" [Demo.payroll] Demo.db).2 in
  (forall x y, collection_name x = collection_name y -> x = y)
  /\ collection_name "acme" <> collection_name "globex"
  /\ (forall k, get_vector_retriever db' "acme" k
                = get_vector_retriever Demo.db "acme" k)
  /\ (forall k r q,
        get_vector_retriever Demo.db "acme" k = Some r ->
        r_collection r = collection_name "acme"
        /\ get_relevant_documents db' r q = get_relevant_documents Demo.db r q)
  /\ (forall q s chain calls,
        VoiceRag.process_query db' q s "acme" chain calls
        = VoiceRag.process_query Demo.db q s "acme" chain calls)
  /\ (forall db0 q s chain calls,
        create_rag_chain db0 "acme" = Ok chain ->
        ChoiceRag.process_query db' q s "acme" chain calls
        = ChoiceRag.process_query Demo.db q s "acme" chain calls).
Proof. apply (tenant_isolation "acme" "globex"). discriminate. Defined.


(** The history after six turns alternates user and assistant. *)
Lemma history_shape_six_turns :
  let s := awaited (connect Demo.db VoiceBot 7 "acme" busy six_turns) in
  well_shaped (chat_history s) = true
  /\ Nat.Even (List.length (chat_history s))
  /\ (forall i e, chat_history s !! i = Some e -> e.1 = role_at i)
  /\ (six_turns = [] -> chat_history s = [])
  /\ (forall data s',
        data !! "type" = Some (JStr "language_switch") ->
        final (connect Demo.db VoiceBot 7 "acme" busy (six_turns ++ [Json data]))
        = Awaiting s' ->
        chat_history s' = chat_history s).
Proof. apply history_shape. vm_compute. reflexivity. Defined.

(** A Choice connection, closed by a disconnect after two voice turns,
    leaves the registry as it found it. *)
Lemma cleanup_after_disconnect :
  let o := connect Demo.db ChoiceBot 7 "acme" busy
             (says_alex_then_sam ++ [Disconnect]) in
  registry o !! 7 = None /\ registry o = busy /\ size (registry o) = size busy.
Proof.
  destruct (cleanup_invariant Demo.db ChoiceBot 7 "acme" busy
              (says_alex_then_sam ++ [Disconnect])) as [Hclosed _].
  destruct (Hclosed (Exn WebSocketDisconnect "")) as [Hgone Hsame].
  - vm_compute. reflexivity.
  - split; [exact Hgone |]. apply Hsame. vm_compute. reflexivity.
Defined.

(** "Alex" stays when a later turn says "Sam". *)
Lemma first_write_wins_alex_sam :
  let s' := awaited (connect Demo.db VoiceBot 7 "acme" busy
                       (introduces_alex ++ introduces_sam)) in
  user_name s' = Some "Alex" /\ forall q, Voice.personalize q s' = s'.
Proof.
  apply (first_write_wins Demo.db VoiceBot 7 "acme" busy
           introduces_alex introduces_sam
           (awaited (connect Demo.db VoiceBot 7 "acme" busy introduces_alex)));
    vm_compute; reflexivity.
Defined.

(** C8, the counterexample.  The Choice handler answers a message of
    type "ping" with nothing: after it the connection is open and the
    only message sent is still the greeting. *)
Lemma choice_sends_no_error_reply :
  outbox (connect Demo.db ChoiceBot 7 "acme" busy [Demo.ping])
  = [Response Choice.initial_greeting None (Some "/static_audio/response.mp3")]
  /\ final (connect Demo.db ChoiceBot 7 "acme" busy [Demo.ping])
     = Awaiting Demo.session0.
Proof. split; vm_compute; reflexivity. Qed.

(** A "ping" followed by a question. *)
Lemma unsupported_type_resilience_ping :
  let data : gmap string jval := {[ "type" := JStr "ping" ]} in
  let more := [text_query "What are your hours?"] in
  (forall ws cid s w,
      send_outcome (sent w) Voice.unsupported = None ->
      let w1 := World (active_sessions w) (sent w ++ [Voice.unsupported])
                      (generated w) (close_code w) in
      Voice.main_loop Demo.db ws cid (Json data :: more) s w
      = Voice.main_loop Demo.db ws cid more s w1
      /\ forall t,
           Voice.iteration Demo.db ws cid (text_query t) s w1
           = Voice.turn Demo.db ws cid (Text.strip t) s w1)
  /\ (forall ws cid l w,
        is_Some (data !! "type") ->
        Choice.main_loop Demo.db ws cid (Json data :: more) l w
        = Choice.main_loop Demo.db ws cid more l w).
Proof.
  apply unsupported_type_resilience.
  intros v Hv. vm_compute in Hv. injection Hv as <-. reflexivity.
Defined.



(** C9, the counterexample.  With the session's language set to "hi",
    the request the Voice backend sends to generation is the context and
    the question alone: it is the request sent for "en", and it does not
    mention Hindi. *)
Lemma voice_passes_no_language_instruction :
  let ask lang :=
    VoiceRag.process_query Demo.db "What are your hours?"
      (set_language (JStr lang) Demo.session0) "acme" Demo.chain [] in
  (ask "hi").2 = [VoiceRag.full_prompt [Demo.hours] "What are your hours?"]
  /\ Text.contains "Hindi"
       (VoiceRag.full_prompt [Demo.hours] "What are your hours?") = false
  /\ ask "hi" = ask "en".
Proof. repeat split; vm_compute; reflexivity. Qed.

(** "fr" falls back to English, "hi" is Hindi. *)
Lemma language_instruction_fr :
  ChoiceRag.language_instruction (JStr "fr") = Ok "English"
  /\ ChoiceRag.language_instruction (JStr "hi") = Ok "Hindi".
Proof.
  split.
  - destruct (language_instruction_mapping "fr") as (E & _ & _ & Hother & _).
    rewrite E, Hother; [reflexivity | discriminate | discriminate].
  - destruct (language_instruction_mapping "hi") as (E & _ & Hhi & _).
    rewrite E, Hhi. reflexivity.
Defined.
End Examples.

(** * Further properties *)

(** ** Characters and strings *)

Section StrFacts.
Import Text Str.

Lemma append_nil_l (t : string) : "" +:+ t = t.
Proof. reflexivity. Qed.

Lemma append_cons c (s t : string) : String c s +:+ t = String c (s +:+ t).
Proof. reflexivity. Qed.

Lemma append_assoc (a b c : string) : (a +:+ b) +:+ c = a +:+ b +:+ c.
Proof.
  induction a as [| d a IH]; [done |]. by rewrite !append_cons, IH.
Qed.

Lemma append_nil_r (s : string) : s +:+ "" = s.
Proof.
  induction s as [| c s IH]; [done |]. by rewrite append_cons, IH.
Qed.

Lemma alpha_to_upper c : is_alpha c = true -> is_upper (to_upper c) = true.
Proof. destruct c as [[] [] [] [] [] [] [] []]; vm_compute; congruence. Qed.

Lemma alpha_to_lower c : is_alpha c = true -> is_lower (to_lower c) = true.
Proof. destruct c as [[] [] [] [] [] [] [] []]; vm_compute; congruence. Qed.

Lemma alpha_not_space c : is_alpha c = true -> is_space c = false.
Proof. destruct c as [[] [] [] [] [] [] [] []]; vm_compute; congruence. Qed.

Lemma lower_char_idem c : lower_char (lower_char c) = lower_char c.
Proof. destruct c as [[] [] [] [] [] [] [] []]; vm_compute; congruence. Qed.

Lemma lower_idem s : lower (lower s) = lower s.
Proof.
  induction s as [| c s IH]; [done |]. unfold lower in *. simpl.
  by rewrite lower_char_idem, IH.
Qed.

Lemma lower_app a b : lower (a +:+ b) = lower a +:+ lower b.
Proof.
  induction a as [| c a IH]; [done |]. unfold lower in *. simpl.
  by rewrite IH.
Qed.

Lemma all_take_while p s : all p (take_while p s) = true.
Proof.
  induction s as [| c s IH]; [done |]. simpl.
  destruct (p c) eqn:E; [| done]. simpl. by rewrite E.
Qed.

Lemma take_while_app p a b :
  all p a = true -> take_while p (a +:+ b) = a +:+ take_while p b.
Proof.
  induction a as [| c a IH]; [done |]. simpl.
  intros [Hc Ha]%andb_true_iff. by rewrite Hc, IH.
Qed.

Lemma drop_while_app p a b :
  all p a = true -> drop_while p (a +:+ b) = drop_while p b.
Proof.
  induction a as [| c a IH]; [done |]. simpl.
  intros [Hc Ha]%andb_true_iff. by rewrite Hc, IH.
Qed.

Lemma take_while_not_headed p s :
  not_headed p s = true -> take_while p s = "".
Proof.
  destruct s as [| c s]; [done |]. simpl. intros H.
  apply negb_true_iff in H. by rewrite H.
Qed.

Lemma drop_while_not_headed p s :
  not_headed p s = true -> drop_while p s = s.
Proof.
  destruct s as [| c s]; [done |]. simpl. intros H.
  apply negb_true_iff in H. by rewrite H.
Qed.

Lemma prefix_nil s : String.prefix "" s = true.
Proof. by destruct s. Qed.

Lemma contains_unfold needle hay :
  contains needle hay
  = if String.prefix needle hay then true
    else match hay with
         | EmptyString => false
         | String _ hay' => contains needle hay'
         end.
Proof. by destruct hay. Qed.

Lemma prefix_app needle hay post :
  String.prefix needle hay = true ->
  String.prefix needle (hay +:+ post) = true.
Proof.
  revert hay. induction needle as [| c needle IH]; intros hay.
  - intros _. apply prefix_nil.
  - destruct hay as [| d hay]; [done |]. simpl.
    destruct (ascii_dec c d); [apply IH | done].
Qed.

Lemma contains_app_r needle hay post :
  contains needle hay = true -> contains needle (hay +:+ post) = true.
Proof.
  induction hay as [| d hay IH]; rewrite contains_unfold;
    destruct (String.prefix needle _) eqn:E; try done; intros H.
  - rewrite contains_unfold. by rewrite (prefix_app _ _ post E).
  - rewrite contains_unfold. by rewrite (prefix_app _ _ post E).
  - rewrite contains_unfold.
    change (String d hay +:+ post) with (String d (hay +:+ post)).
    cbv iota. rewrite (IH H).
    destruct (String.prefix needle (String d (hay +:+ post))); reflexivity.
Qed.

Lemma contains_app_l needle pre hay :
  contains needle hay = true -> contains needle (pre +:+ hay) = true.
Proof.
  intros H. induction pre as [| d pre IH]; [done |].
  rewrite contains_unfold.
  change (String d pre +:+ hay) with (String d (pre +:+ hay)).
  cbv iota. rewrite IH.
  destruct (String.prefix needle (String d (pre +:+ hay))); reflexivity.
Qed.

(** A keyword found in a text is found in every text around it. *)
Lemma contains_embedded needle pre hay post :
  contains needle hay = true ->
  contains needle (pre +:+ hay +:+ post) = true.
Proof. intros H. by apply contains_app_l, contains_app_r. Qed.
End StrFacts.

(** ** Name detection, continued *)

Section NameShape.
Import Text Str NameDetection.

Lemma match_here_alpha lit text g :
  match_here lit text = Some g -> all is_alpha g = true.
Proof.
  unfold match_here. destruct (match_literal lit text) as [rest |]; [| done].
  destruct (nonempty (take_while is_space rest)); [| done].
  destruct (nonempty _); [| done]. intros [= <-]. apply all_take_while.
Qed.

Lemma re_search_alpha lit text g :
  re_search lit text = Some g -> all is_alpha g = true.
Proof.
  induction text as [| c text IH]; simpl;
    destruct (match_here lit _) as [g' |] eqn:E; try done;
    intros [= <-]; eauto using match_here_alpha.
Qed.

Lemma capitalize_capitalized g :
  nonempty g = true -> all is_alpha g = true ->
  capitalized (capitalize g) = true.
Proof.
  destruct g as [| c g]; [done |]. simpl.
  intros _ [Hc Hg]%andb_true_iff. rewrite (alpha_to_upper c Hc). simpl.
  induction g as [| d g IH]; [done |]. simpl in *.
  apply andb_true_iff in Hg as [Hd Hg].
  by rewrite (alpha_to_lower d Hd), IH.
Qed.

(** X1.  For a text of code points below 256 (the strings of this
    development), a name that [detect_user_name] returns is an ASCII
    capital followed by ASCII small letters only: never empty, never
    with a digit, a space or any other sign in it.  Beyond that range
    the shape is not guaranteed: under [re.IGNORECASE] the class also
    matches U+0130, which [capitalize] turns into two characters. *)
Theorem detect_user_name_capitalized text n :
  detect_user_name text = Some n ->
  capitalized n = true /\ nonempty n = true.
Proof.
  intros Hn. split; [| eauto using detect_user_name_nonempty].
  rewrite detect_user_name_first_only in Hn.
  destruct (re_search _ text) as [g |] eqn:E; [| done].
  injection Hn as <-.
  eauto using capitalize_capitalized, re_search_nonempty, re_search_alpha.
Qed.

Lemma match_literal_app lit intro rest :
  match_literal lit intro = Some "" ->
  match_literal lit (intro +:+ rest) = Some rest.
Proof.
  revert intro. induction lit as [| p lit IH]; intros intro; simpl.
  - by intros [= ->].
  - destruct intro as [| c intro]; [done |]. simpl.
    destruct (Ascii.eqb _ _); [apply IH | done].
Qed.

Lemma re_search_here lit text g :
  match_here lit text = Some g -> re_search lit text = Some g.
Proof. intros H. destruct text; simpl; by rewrite H. Qed.

(** X2.  A text that begins with "my name is" in any mix of cases, then
    some whitespace, then a token of letters that is followed by the end
    of the text or by a character that is not a letter, yields that
    token, capitalized. *)
Theorem detect_user_name_introduction intro ws name rest :
  match_literal "my name is" intro = Some "" ->
  all is_space ws = true -> nonempty ws = true ->
  all is_alpha name = true -> nonempty name = true ->
  not_headed is_alpha rest = true ->
  detect_user_name (intro +:+ ws +:+ name +:+ rest)
  = Some (capitalize name).
Proof.
  intros Hintro Hws Hws1 Hname Hname1 Hrest.
  rewrite detect_user_name_first_only.
  assert (Hhead : not_headed is_space (name +:+ rest) = true).
  { destruct name as [| c name]; [done |]. simpl in *.
    apply andb_true_iff in Hname as [Hc _].
    by rewrite (alpha_not_space c Hc). }
  rewrite (re_search_here _ _ name); [done |].
  unfold match_here. rewrite (match_literal_app _ _ _ Hintro).
  rewrite (take_while_app _ _ _ Hws), (drop_while_app _ _ _ Hws).
  rewrite (take_while_not_headed _ _ Hhead), (drop_while_not_headed _ _ Hhead).
  rewrite (take_while_app _ _ _ Hname), (take_while_not_headed _ _ Hrest).
  assert (E : forall s, s +:+ "" = s)
    by (intros s; induction s as [| c s IH]; [done |];
        change (String c s +:+ "") with (String c (s +:+ "")); congruence).
  by rewrite !E, Hws1, Hname1.
Qed.
End NameShape.

(** ** Intent detection *)

Section IntentFacts.
Import Text Str Intent.

Lemma mentions_embedded keywords pre t post :
  mentions keywords t = true ->
  mentions keywords (pre +:+ t +:+ post) = true.
Proof.
  unfold mentions. rewrite !existsb_exists.
  intros (kw & Hin & Hkw). exists kw. eauto using contains_embedded.
Qed.

Lemma detect_intent_some t :
  detect_intent (Some t)
  = if mentions booking_keywords (lower t) then Some "book_visit"
    else if mentions contact_keywords (lower t) then Some "save_contact"
    else None.
Proof. reflexivity. Qed.

(** X3.  [detect_intent] looks for its keywords anywhere in the lowered
    text: an intent found in a text is found in every text that contains
    it, a booking intent stays a booking intent there, and the result
    does not depend on letter case.  No text at all gives no intent. *)
Theorem detect_intent_embedded pre t post intent :
  detect_intent (Some t) = Some intent ->
  (exists intent',
      detect_intent (Some (pre +:+ t +:+ post)) = Some intent'
      /\ (intent = "book_visit" -> intent' = "book_visit"))
  /\ detect_intent (Some (lower t)) = Some intent
  /\ detect_intent None = None.
Proof.
  rewrite !detect_intent_some, lower_idem, !lower_app.
  intros H. split; [| done].
  destruct (mentions booking_keywords (lower t)) eqn:Eb.
  - rewrite (mentions_embedded _ (lower pre) _ (lower post) Eb).
    by exists "book_visit".
  - destruct (mentions contact_keywords (lower t)) eqn:Ec; [| done].
    injection H as <-.
    rewrite (mentions_embedded _ (lower pre) _ (lower post) Ec).
    destruct (mentions booking_keywords (_ +:+ _)).
    + by exists "book_visit".
    + exists "save_contact". split; [done | intros [=]].
Qed.
End IntentFacts.



(** ** Document loading *)

Section LoaderFacts.
Import Text Str Ingestion.

Lemma rsplit_app_clean p s t :
  all (fun c => negb (p c)) t = true ->
  rsplit p (s +:+ t) = (fun r => r +:+ t) <$> rsplit p s.
Proof.
  intros Ht. induction s as [| c s IH].
  - rewrite ?append_nil_l. simpl.
    induction t as [| d t IHt]; [done |]. simpl in *.
    apply andb_true_iff in Ht as [Hd Ht]. rewrite (IHt Ht).
    apply negb_true_iff in Hd. by rewrite Hd.
  - rewrite ?append_cons. simpl.
    rewrite IH. destruct (rsplit p s); simpl; [done |]. by destruct (p c).
Qed.

Lemma rsplit_last p s d t :
  p d = true -> all (fun c => negb (p c)) t = true ->
  rsplit p (s +:+ String d t) = Some t.
Proof.
  intros Hd Ht.
  assert (Hn : rsplit p t = None).
  { pose proof (rsplit_app_clean p "" t Ht) as E.
    by rewrite ?append_nil_l in E. }
  induction s as [| c s IH].
  - rewrite ?append_nil_l. simpl. by rewrite Hn, Hd.
  - rewrite ?append_cons. simpl. by rewrite IH.
Qed.

Lemma drop_while_not_all p s t :
  all p s = false ->
  drop_while p (s +:+ t) = drop_while p s +:+ t
  /\ exists c r, drop_while p s = String c r.
Proof.
  induction s as [| c s IH]; [done |]. rewrite ?append_cons. simpl.
  destruct (p c); simpl; [auto |]. intros _. eauto.
Qed.

Lemma all_weaken (p q : ascii -> bool) s :
  (forall c, p c = true -> q c = true) -> all p s = true -> all q s = true.
Proof.
  intros Hpq. induction s as [| c s IH]; [done |]. simpl.
  intros [Hc Hs]%andb_true_iff. by rewrite (Hpq c Hc), IH.
Qed.

(** The extension of a path that ends in a dot and a suffix free of
    dots and separators. *)
Lemma extension_suffix os stem ext :
  all (fun c => negb (is_dot c) && negb (is_sep os c)) ext = true ->
  extension os (stem +:+ "." +:+ ext)
  = if all is_dot (basename os stem) then "" else String "." ext.
Proof.
  intros Hext.
  assert (Hd : all (fun c => negb (is_dot c)) ext = true).
  { revert Hext. apply all_weaken. by intros c [? ?]%andb_true_iff. }
  assert (Hs : all (fun c => negb (is_sep os c)) ("." +:+ ext) = true).
  { simpl. apply andb_true_iff. split; [by destruct os |].
    revert Hext. apply all_weaken. by intros c [? ?]%andb_true_iff. }
  unfold extension, basename.
  rewrite (rsplit_app_clean _ stem _ Hs).
  assert (E : default (stem +:+ "." +:+ ext)
                ((fun r => r +:+ "." +:+ ext) <$> rsplit (is_sep os) stem)
              = default stem (rsplit (is_sep os) stem) +:+ "." +:+ ext)
    by (by destruct (rsplit _ stem)).
  rewrite E. clear E.
  destruct (all is_dot _) eqn:Eh.
  - rewrite (drop_while_app _ _ _ Eh). simpl.
    assert (E : drop_while is_dot ext = ext).
    { destruct ext as [| c ext]; [done |]. simpl in *.
      apply andb_true_iff in Hd as [Hc _].
      apply negb_true_iff in Hc. by rewrite Hc. }
    rewrite ?append_nil_l, E. pose proof (rsplit_app_clean is_dot "" ext Hd) as En.
    rewrite ?append_nil_l in En. by rewrite En.
  - destruct (drop_while_not_all is_dot _ ("." +:+ ext) Eh)
      as (-> & c & r & ->).
    change ("." +:+ ext) with (String "." ext).
    by rewrite (rsplit_last is_dot (String c r) "." ext).
Qed.

Lemma lower_cons c s : lower (String c s) = String (lower_char c) (lower s).
Proof. reflexivity. Qed.

(** X4.  The loader of a path is chosen by what follows the last dot of
    its last component, whatever the case of its letters: PDF, DOCX, CSV
    and TXT files get their loaders, every other suffix gets none, and
    so does a file whose name is nothing but dots before the suffix
    (".txt", "..pdf"). *)
Theorem get_document_loader_suffix os stem ext :
  all (fun c => negb (is_dot c) && negb (is_sep os c)) ext = true ->
  let path := stem +:+ "." +:+ ext in
  if all is_dot (basename os stem)
  then get_document_loader os path = None
  else
    (lower ext = "pdf" -> get_document_loader os path = Some (PyPDFLoader path))
    /\ (lower ext = "docx"
        -> get_document_loader os path = Some (Docx2txtLoader path))
    /\ (lower ext = "csv" -> get_document_loader os path = Some (CSVLoader path))
    /\ (lower ext = "txt" -> get_document_loader os path = Some (TextLoader path))
    /\ (lower ext ∉ ["pdf"; "docx"; "csv"; "txt"]
        -> get_document_loader os path = None).
Proof.
  intros Hext path. unfold get_document_loader. subst path. cbv zeta.
  rewrite (extension_suffix os stem ext Hext).
  destruct (all is_dot _); [done |].
  change (lower (String "." ext)) with (String "." (lower ext)).
  repeat split; try (by intros ->).
  intros Hother.
  rewrite !bool_decide_eq_false_2; [done | ..];
    intros [= E]; apply Hother; rewrite E; set_solver.
Qed.
(** X5.  A path whose last component has no dot gets no loader, whatever
    dots the directories before it have in their names. *)
Theorem get_document_loader_no_suffix os path :
  all (fun c => negb (is_dot c)) (basename os path) = true ->
  get_document_loader os path = None.
Proof.
  intros Hbase. unfold get_document_loader, extension.
  assert (E : drop_while is_dot (basename os path) = basename os path).
  { destruct (basename os path) as [| c base]; [done |]. simpl in *.
    apply andb_true_iff in Hbase as [Hc _].
    apply negb_true_iff in Hc. by rewrite Hc. }
  rewrite E. pose proof (rsplit_app_clean is_dot "" _ Hbase) as En.
  rewrite ?append_nil_l in En. by rewrite En.
Qed.
End LoaderFacts.

(** ** Ingestion *)

Section IngestFacts.
Import Py VectorStore Ingestion.
Context `{Chroma} `{FileSystem}.
Implicit Types (db : chroma_db) (documents : list Document).

(** A file that is passed over leaves the documents as they are. *)
Lemma load_file_skipped dir documents name :
  (get_document_loader os (path_join dir name) = None
   \/ exists loader e,
        get_document_loader os (path_join dir name) = Some loader
        /\ loader_init loader = None
        /\ load loader = Raise e) ->
  load_file dir documents name = Ok documents.
Proof.
  unfold load_file. by intros [-> | (loader & e & -> & -> & ->)].
Qed.

Lemma load_directory_app dir before after documents :
  load_directory dir (before ++ after) documents
  = match load_directory dir before documents with
    | Ok gathered => load_directory dir after gathered
    | Raise e => Raise e
    end.
Proof.
  revert documents.
  induction before as [| name before IH]; intros documents; simpl; [done |].
  by destruct (load_file dir documents name).
Qed.

(** X6.  The loading loop passes over a file that has no loader, and
    over a file whose loader was constructed and whose [load()] raises:
    the outcome is that of the listing without the file.  A file whose
    loader cannot be constructed is not passed over: the constructor is
    called outside the [try], and what it raises ends the loop. *)
Theorem load_directory_skips dir before name after documents :
  let file_path := path_join dir name in
  ((get_document_loader os file_path = None
    \/ exists loader e,
         get_document_loader os file_path = Some loader
         /\ loader_init loader = None
         /\ load loader = Raise e) ->
   load_directory dir (before ++ name :: after) documents
   = load_directory dir (before ++ after) documents)
  /\ (forall loader e gathered,
        get_document_loader os file_path = Some loader ->
        loader_init loader = Some e ->
        load_directory dir before documents = Ok gathered ->
        load_directory dir (before ++ name :: after) documents = Raise e).
Proof.
  intros file_path. split.
  - intros Hbad. rewrite !load_directory_app.
    destruct (load_directory dir before documents) as [gathered | e];
      [| done].
    simpl. by rewrite (load_file_skipped _ _ _ Hbad).
  - intros loader e gathered Hloader Hinit Hbefore.
    rewrite load_directory_app, Hbefore. simpl. unfold load_file.
    fold file_path. by rewrite Hloader, Hinit.
Qed.

Lemma load_and_embed_documents_store cid documents db :
  let '(success, db') :=
    VectorStore.load_and_embed_documents cid documents db in
  if success
  then documents <> []
       /\ db' = <[collection_name cid :=
                    default [] (db !! collection_name cid)
                    ++ split_documents documents]> db
  else db' = db.
Proof.
  unfold VectorStore.load_and_embed_documents.
  destruct documents as [| d documents]; [done |].
  by destruct (from_documents_ok _ _).
Qed.

(** An exception of the loop is the exception of a constructor. *)
Lemma load_directory_raises dir names documents e :
  load_directory dir names documents = Raise e ->
  exists name loader,
    name ∈ names
    /\ get_document_loader os (path_join dir name) = Some loader
    /\ loader_init loader = Some e.
Proof.
  revert documents.
  induction names as [| name names IH]; intros documents; simpl; [done |].
  destruct (load_file dir documents name) as [documents' | e'] eqn:E.
  - intros (n & l & Hn & Hl & Hi)%IH. exists n, l.
    split; [apply elem_of_cons; by right | done].
  - intros [= ->]. unfold load_file in E.
    destruct (get_document_loader _ _) as [loader |] eqn:El; [| done].
    destruct (loader_init loader) as [e1 |] eqn:Ei;
      [| by destruct (load loader)].
    injection E as ->. exists name, loader.
    split; [apply elem_of_cons; by left | done].
Qed.

(** X7.  A request to [/ingest/] has one of five outcomes.  Status 200:
    the path is a directory, the loop gathered documents, and their
    chunks were added to the tenant's collection.  Status 400: the path
    is no directory.  Status 500: nothing was stored.  An exception
    that leaves the endpoint unhandled, either that of the directory
    listing or that of the constructor of a loader chosen for a file of
    the directory: nothing was stored.  Only under status 200 does the
    store change, and then only in the collection of the tenant named. *)
Theorem http_ingest_data_all_or_nothing cid path db :
  let '(r, db') := http_ingest_data cid path db in
  (forall other, other <> cid ->
     db' !! collection_name other = db !! collection_name other)
  /\ match r with
     | Ok answer =>
         (answer = ingested cid /\ isdir path = true
          /\ exists names documents,
               listdir path = Ok names
               /\ load_directory path names [] = Ok documents
               /\ documents <> []
               /\ db' = <[collection_name cid :=
                            default [] (db !! collection_name cid)
                            ++ split_documents documents]> db)
         \/ (answer = not_a_directory path /\ isdir path = false /\ db' = db)
         \/ (answer = ingestion_failed /\ isdir path = true /\ db' = db)
     | Raise e =>
         isdir path = true /\ db' = db
         /\ (listdir path = Raise e
             \/ exists names name loader,
                  listdir path = Ok names
                  /\ name ∈ names
                  /\ get_document_loader os (path_join path name)
                     = Some loader
                  /\ loader_init loader = Some e)
     end.
Proof.
  unfold http_ingest_data, load_and_embed_documents.
  destruct (isdir path); simpl; [| by eauto 10].
  destruct (listdir path) as [names | e]; [| by auto].
  destruct (load_directory path names []) as [documents | e] eqn:El.
  - pose proof (load_and_embed_documents_store cid documents db) as Hs.
    destruct (VectorStore.load_and_embed_documents _ _ _) as [[] db'].
    + destruct Hs as [Hne ->]. split.
      * intros other Hother. apply lookup_insert_ne.
        intros E. by apply collection_name_inj in E.
      * left. eauto 10.
    + subst db'. eauto 10.
  - apply load_directory_raises in El as (name & loader & Hn & Hl & Hi).
    split; [done |]. split; [done |]. split; [done |]. right. eauto 10.
Qed.

Lemma load_directory_nothing dir names documents :
  (forall name, name ∈ names
                -> get_document_loader os (path_join dir name) = None) ->
  load_directory dir names documents = Ok documents.
Proof.
  induction names as [| name names IH]; [done |]. intros Hnone. simpl.
  unfold load_file at 1. rewrite Hnone by set_solver.
  apply IH. intros n Hn. apply Hnone. set_solver.
Qed.

(** X8.  A directory in which no file has a loader, an empty directory
    among them, is answered with status 500, "Ingestion failed.", and
    the store is left as it was. *)
Theorem http_ingest_data_nothing_to_load cid path names db :
  isdir path = true -> listdir path = Ok names ->
  (forall name, name ∈ names
                -> get_document_loader os (path_join path name) = None) ->
  http_ingest_data cid path db = (Ok ingestion_failed, db).
Proof.
  intros Hdir Hls Hnone.
  unfold http_ingest_data, load_and_embed_documents.
  rewrite Hdir, Hls. simpl.
  by rewrite (load_directory_nothing _ _ _ Hnone).
Qed.
End IngestFacts.

(** ** Speech synthesis of the Voice backend *)

Section SpeechFacts.
Import Py Text Str VoiceAudio.

(** X10.  The language handed to gTTS is "hi" when the session's
    language is a string that reads "hi" or "hindi" in any mix of cases,
    and "en" for every other value, a string or not: synthesis is never
    asked for a third language. *)
Theorem lang_code_closed language :
  (lang_code language = "hi"
   <-> exists l, language = JStr l /\ (lower l = "hi" \/ lower l = "hindi"))
  /\ (lang_code language = "en" \/ lang_code language = "hi").
Proof.
  assert (Hmap : forall k v,
             LANGUAGE_MAP !! k = Some v ->
             (v = "hi" /\ (k = "hi" \/ k = "hindi"))
             \/ (v = "en" /\ k <> "hi" /\ k <> "hindi")).
  { intros k v Hk. apply elem_of_list_to_map_2 in Hk.
    repeat (apply elem_of_cons in Hk as [Hk | Hk];
            [inversion Hk; subst; first [left; by auto | right; done] |]).
    by apply elem_of_nil in Hk. }
  destruct language as [| b | n | l |]; simpl;
    try (split; [split; [done | by intros (l & ? & _)] | by left]).
  destruct (LANGUAGE_MAP !! lower l) as [v |] eqn:E; simpl.
  - destruct (Hmap _ _ E) as [[-> Hk] | (-> & Hk1 & Hk2)].
    + split; [| by right]. split; eauto.
    + split; [| by left]. split; [done |].
      by intros (l' & [= <-] & [Hl | Hl]).
  - split; [| by left]. split; [done |].
    intros (l' & [= <-] & [Hl | Hl]); by rewrite Hl in E.
Qed.

Lemma all_app p a b : all p (a +:+ b) = all p a && all p b.
Proof.
  induction a as [| c a IH]; [done |]. rewrite ?append_cons. simpl.
  by rewrite IH, andb_assoc.
Qed.

Lemma all_take_while_of q p s :
  all q s = true -> all q (take_while p s) = true.
Proof.
  induction s as [| c s IH]; [done |]. simpl.
  intros [Hc Hs]%andb_true_iff. destruct (p c); [| done]. simpl.
  by rewrite Hc, IH.
Qed.

Lemma all_drop_while_of q p s :
  all q s = true -> all q (drop_while p s) = true.
Proof.
  induction s as [| c s IH]; [done |]. simpl.
  intros [Hc Hs]%andb_true_iff. destruct (p c); [by apply IH |]. simpl.
  by rewrite Hc, Hs.
Qed.

Lemma all_rev_string q acc s :
  all q (rev_string acc s) = all q acc && all q s.
Proof.
  revert acc. induction s as [| c s IH]; intros acc; simpl.
  - by rewrite andb_true_r.
  - rewrite IH. simpl. rewrite !andb_assoc. f_equal. apply andb_comm.
Qed.

Lemma all_strip q s : all q s = true -> all q (strip s) = true.
Proof.
  intros Hs. unfold strip. rewrite all_rev_string. simpl.
  apply all_drop_while_of. rewrite all_rev_string. simpl.
  by apply all_drop_while_of.
Qed.

Lemma all_remove p s : all (fun c => negb (p c)) (remove p s) = true.
Proof.
  induction s as [| c s IH]; [done |]. simpl.
  destruct (p c) eqn:E; [done |]. simpl. by rewrite E.
Qed.

Lemma length_app_string a b :
  String.length (a +:+ b) = String.length a + String.length b.
Proof.
  induction a as [| c a IH]; [done |]. rewrite ?append_cons. simpl.
  by rewrite IH.
Qed.

Lemma length_take_drop_while p s :
  String.length (take_while p s) + String.length (drop_while p s)
  = String.length s.
Proof.
  induction s as [| c s IH]; [done |]. simpl.
  destruct (p c); simpl; lia.
Qed.

Lemma length_drop_while p s :
  String.length (drop_while p s) <= String.length s.
Proof. pose proof (length_take_drop_while p s). lia. Qed.

Lemma length_rev_string acc s :
  String.length (rev_string acc s) = String.length acc + String.length s.
Proof.
  revert acc. induction s as [| c s IH]; intros acc; simpl; [lia |].
  rewrite IH. simpl. lia.
Qed.

Lemma length_strip s : String.length (strip s) <= String.length s.
Proof.
  unfold strip. rewrite length_rev_string. simpl.
  etransitivity; [apply length_drop_while |].
  rewrite length_rev_string. simpl. apply length_drop_while.
Qed.

Lemma length_remove p s : String.length (remove p s) <= String.length s.
Proof.
  induction s as [| c s IH]; [done |]. simpl.
  destruct (p c); simpl; lia.
Qed.

(** A link that matches at the head of a text: its label and what
    follows it are parts of the text. *)
Lemma link_at_parts s label rest :
  link_at s = Some (label, rest) ->
  String.length label + String.length rest < String.length s
  /\ forall q, all q s = true -> all q label = true /\ all q rest = true.
Proof.
  unfold link_at. destruct s as [| c s1]; [done |].
  destruct (Ascii.eqb_spec c "["); [subst c | by destruct c as [[] [] [] [] [] [] [] []]].
  destruct (drop_while (isnt "]") s1) as [| c1 [| c2 s2]] eqn:E1;
    [done | by destruct c1 as [[] [] [] [] [] [] [] []] |].
  destruct (Ascii.eqb_spec c1 "]");
    [subst c1 | by destruct c1 as [[] [] [] [] [] [] [] []]].
  destruct (Ascii.eqb_spec c2 "(");
    [subst c2 | by destruct c2 as [[] [] [] [] [] [] [] []]].
  destruct (drop_while (isnt ")") s2) as [| c3 s3] eqn:E2; [done |].
  destruct (Ascii.eqb_spec c3 ")");
    [subst c3 | by destruct c3 as [[] [] [] [] [] [] [] []]].
  destruct (nonempty _ && nonempty _); [| done]. intros [= <- <-].
  pose proof (length_take_drop_while (isnt "]") s1) as L1.
  pose proof (length_take_drop_while (isnt ")") s2) as L2.
  rewrite E1 in L1. rewrite E2 in L2. simpl in *. split; [lia |].
  intros q [_ Hs1]%andb_true_iff.
  split; [by apply all_take_while_of |].
  pose proof (all_drop_while_of q (isnt "]") s1 Hs1) as Hd.
  rewrite E1 in Hd. simpl in Hd.
  apply andb_true_iff in Hd as [_ Hd]. apply andb_true_iff in Hd as [_ Hd].
  pose proof (all_drop_while_of q (isnt ")") s2 Hd) as Hd2.
  rewrite E2 in Hd2. simpl in Hd2. by apply andb_true_iff in Hd2 as [_ ?].
Qed.

Lemma sub_links_bounds q skip s :
  String.length (sub_links skip s) <= String.length s - skip
  /\ (all q s = true -> all q (sub_links skip s) = true).
Proof.
  revert skip. induction s as [| c s IH]; intros skip; [done |].
  destruct skip as [| k].
  - cbn [sub_links]. destruct (link_at (String c s)) as [[label rest] |] eqn:E.
    + apply link_at_parts in E as [Hlen Hall].
      destruct (IH (String.length s - String.length rest)) as [IHlen IHall].
      rewrite length_app_string, all_app. simpl in *. split; [lia |].
      intros Hq. destruct (Hall q Hq) as [-> _]. simpl.
      apply IHall. by apply andb_true_iff in Hq as [_ ?].
    + destruct (IH 0) as [IHlen IHall]. simpl. split; [lia |].
      intros [-> Hs]%andb_true_iff. simpl. auto.
  - cbn [sub_links]. destruct (IH k) as [IHlen IHall]. simpl. split; [lia |].
    intros [_ Hs]%andb_true_iff. auto.
Qed.

(** X11.  The text handed to gTTS holds no asterisk, underscore or
    backquote, and is not longer than the response it was made from. *)
Theorem clean_text_for_tts_plain text :
  all (fun c => negb (is_markup c)) (clean_text_for_tts text) = true
  /\ String.length (clean_text_for_tts text) <= String.length text.
Proof.
  unfold clean_text_for_tts. split.
  - apply all_strip, sub_links_bounds, all_remove.
  - etransitivity; [apply length_strip |].
    destruct (sub_links_bounds is_markup 0 (remove is_markup text)) as [L _].
    pose proof (length_remove is_markup text). lia.
Qed.

Lemma sub_links_skip s t :
  sub_links (String.length s) (s +:+ t) = sub_links 0 t.
Proof. induction s as [| c s IH]; [done |]. by rewrite ?append_cons. Qed.

Lemma sub_links_no_bracket pre t :
  all (isnt "[") pre = true ->
  sub_links 0 (pre +:+ t) = pre +:+ sub_links 0 t.
Proof.
  induction pre as [| c pre IH]; [done |]. intros Hall.
  simpl in Hall. apply andb_true_iff in Hall as [Hc Hpre].
  rewrite ?append_cons. cbn [sub_links].
  assert (E : link_at (String c (pre +:+ t)) = None).
  { unfold link_at. unfold isnt in Hc. apply negb_true_iff in Hc.
    by destruct c as [[] [] [] [] [] [] [] []]. }
  by rewrite E, IH.
Qed.

(** X12.  A markdown link is replaced by its label: where a text reads
    "[label](target)" after a part without an opening bracket, the
    cleaned text keeps the part and the label, drops the brackets and
    the target, and goes on after the closing parenthesis. *)
Theorem sub_links_link pre label target post :
  all (isnt "[") pre = true ->
  all (isnt "]") label = true -> nonempty label = true ->
  all (isnt ")") target = true -> nonempty target = true ->
  sub_links 0 (pre +:+ "[" +:+ label +:+ "](" +:+ target +:+ ")" +:+ post)
  = pre +:+ label +:+ sub_links 0 post.
Proof.
  intros Hpre Hlabel Hl1 Htarget Ht1.
  rewrite (sub_links_no_bracket _ _ Hpre). f_equal.
  rewrite ?append_cons, ?append_nil_l. cbn [sub_links].
  assert (E : link_at (String "[" (label +:+ String "]" (String "("
                         (target +:+ String ")" post))))
              = Some (label, post)).
  { unfold link_at.
    rewrite (take_while_app _ _ _ Hlabel), (drop_while_app _ _ _ Hlabel).
    simpl.
    rewrite (take_while_app _ _ _ Htarget), (drop_while_app _ _ _ Htarget).
    simpl.
    by rewrite !append_nil_r, Hl1, Ht1. }
  rewrite E. f_equal.
  assert (El : String.length (label +:+ String "]" (String "("
                  (target +:+ String ")" post))) - String.length post
               = String.length (label +:+ "](" +:+ target +:+ ")")).
  { rewrite !length_app_string. simpl. rewrite !length_app_string. simpl.
    lia. }
  rewrite El.
  replace (label +:+ String "]" (String "(" (target +:+ String ")" post)))
    with ((label +:+ "](" +:+ target +:+ ")") +:+ post).
  - apply sub_links_skip.
  - by rewrite !append_assoc.
Qed.
End SpeechFacts.

(** ** Synthesis failures *)

Section SynthesisFacts.
Import Py VoiceAudio.
Context `{Synthesis}.

(** X13.  Speech synthesis of the Voice backend degrades and never
    raises.  When gTTS fails there is no audio; when gTTS delivers and
    ffmpeg fails, by an exception or a return code other than 0, the
    audio is what gTTS delivered, at its original speed. *)
Theorem synthesis_degrades text language :
  let spoken := gtts (clean_text_for_tts text) (lang_code language) in
  let audio := @Voice.generate_speech_audio speech text language in
  (forall e, spoken = Raise e -> audio = Voice.TtsBytes [])
  /\ (forall mp3,
        spoken = Ok mp3 ->
        (forall output, ffmpeg_atempo mp3 <> Ok (0, output)) ->
        audio = Voice.TtsBytes mp3).
Proof.
  intros spoken audio. subst spoken audio.
  unfold Voice.generate_speech_audio. simpl.
  unfold generate_gtts_bytes, speed_up_audio_bytes. split.
  - by intros e ->.
  - intros mp3 -> Hfail. destruct mp3 as [| b mp3]; [done |].
    destruct (ffmpeg_atempo (b :: mp3)) as [[[| code] output] | e];
      [by destruct (Hfail output) | done | done].
Qed.
End SynthesisFacts.

(** ** More of the session protocol *)

Section Handshake.
Import Py VectorStore Session Wire.
Context `{Chroma} `{ChatModel} `{ChoiceRag.LangChain} `{VoiceRag.Gemini}
        `{Runtime} `{Choice.Speech} `{Voice.Speech}.
Variable db : chroma_db.

(** X14.  A tenant whose collection cannot be opened is refused by both
    handlers: the client gets one error message that names the tenant,
    the connection is closed with code 1008, no session is registered,
    nothing is asked of generation and no frame is read. *)
Theorem unknown_tenant_rejected ws cid frames (w : world string)
    (w' : world ChoiceRag.prompt_inputs) :
  let refusal :=
    Error ("Could not initialize retriever for client " +:+ cid
           +:+ ". Has data been ingested?") in
  get_vector_retriever db cid 4 = None ->
  send_outcome (sent w) refusal = None ->
  send_outcome (sent w') refusal = None ->
  Voice.websocket_endpoint db ws cid frames w
  = (Rejected,
     World (active_sessions w) (sent w ++ [refusal]) (generated w)
           (Some 1008))
  /\ Choice.websocket_endpoint db ws cid frames w'
     = (Rejected,
        World (active_sessions w') (sent w' ++ [refusal]) (generated w')
              (Some 1008)).
Proof.
  intros refusal Hnone Hw Hw'.
  unfold Voice.websocket_endpoint, Choice.websocket_endpoint,
    create_rag_chain.
  rewrite Hnone. simpl. unfold bind, send_json. fold refusal.
  by rewrite Hw, Hw'.
Qed.
End Handshake.

(** ** Answering in the Voice backend *)

Section VoiceAnswers.
Import Py VectorStore Session Wire VoiceRag.
Context `{Chroma} `{ChatModel} `{Gemini} `{Runtime} `{Voice.Speech}.
Variables (db : chroma_db) (websocket : conn) (client_id : string).

Lemma voice_process_query_returns q s chain calls :
  exists reply calls',
    process_query db q s client_id chain calls = (Ok reply, calls')
    /\ (calls' = calls \/ exists prompt, calls' = calls ++ [prompt]).
Proof.
  unfold process_query, try_except.
  destruct (get_vector_retriever db client_id 4) as [retriever |];
    [| by eauto].
  unfold bind, lift, call_gemini, ret.
  destruct (get_relevant_documents db retriever q) as [[| d docs] | e];
    [by eauto | | by eauto].
  destruct (generate_content_async _) as [response | e]; [| by eauto 6].
  destruct (text_out response); by eauto 6.
Qed.

Lemma voice_fallback_unused q s chain (w : Voice.world) h :
  try_except (with_generation (process_query db q s client_id chain)) h w
  = with_generation (process_query db q s client_id chain) w.
Proof.
  unfold try_except, with_generation.
  by destruct (voice_process_query_returns q s chain (generated w))
    as (reply & calls' & -> & _).
Qed.

(** X15.  [process_query] of the Voice backend returns a reply for
    every query, whatever retrieval and generation do, and asks
    generation at most once; so the handler's own fallback reply for a
    failed query is never used. *)
Theorem voice_process_query_never_raises q s chain :
  (forall calls, exists reply calls',
      process_query db q s client_id chain calls = (Ok reply, calls')
      /\ (calls' = calls \/ exists prompt, calls' = calls ++ [prompt]))
  /\ (forall (w : Voice.world) h,
        try_except
          (with_generation (process_query db q s client_id chain)) h w
        = with_generation (process_query db q s client_id chain) w).
Proof.
  split; [apply voice_process_query_returns |].
  intros w h. apply voice_fallback_unused.
Qed.

(** X16.  A turn of the Voice handler fails only in the transport: it
    either sends one response and records the exchange, in the session
    and in the registry entry, or it raises what [send_json] raised for
    that response, with nothing sent. *)
Theorem voice_turn_outcome q s w :
  match Voice.turn db websocket client_id q s w with
  | (Ok s', w') =>
      exists r a u,
        sent w' = sent w ++ [Response r a u]
        /\ s' = update_chat_history q r (Voice.personalize q s)
        /\ active_sessions w'
           = alter (fun _ => s') websocket (active_sessions w)
  | (Raise e, w') =>
      exists r a u,
        send_outcome (sent w) (Response r a u) = Some e
        /\ sent w' = sent w
  end.
Proof.
  unfold Voice.turn, bind, commit, modify.
  rewrite voice_fallback_unused. unfold with_generation. simpl.
  destruct (voice_process_query_returns q (Voice.personalize q s)
              (rag_chain (Voice.personalize q s)) (generated w))
    as (reply & calls' & -> & _).
  unfold Voice.respond. destruct (Voice.audio_fields _) as [a u].
  unfold send_json. simpl.
  destruct (send_outcome (sent w) (Response reply a u)) eqn:Es; simpl.
  - eauto.
  - exists reply, a, u. repeat split.
    apply map_eq. intros k. destruct (decide (k = websocket)) as [-> |].
    + rewrite !lookup_alter_eq.
      by destruct (active_sessions w !! websocket).
    + by rewrite !lookup_alter_ne.
Qed.
End VoiceAnswers.

(** ** Messages that lack a field *)

Section MissingFields.
Import Py VectorStore Session Wire Registry Backend Inbound.
Context `{Chroma} `{ChatModel} `{ChoiceRag.LangChain} `{VoiceRag.Gemini}
        `{Runtime} `{Choice.Speech} `{Voice.Speech}.
Variable db : chroma_db.
Implicit Types (b : backend) (reg : gmap conn session).

Lemma sent_cleanup {P} ws (w : world P) : sent (cleanup ws w) = sent w.
Proof. unfold cleanup. by destruct (active_sessions w !! ws). Qed.

Lemma voice_iteration_missing ws cid data key s w :
  (data !! "type" = Some (JStr "language_switch") /\ key = "language")
  \/ (data !! "type" = Some (JStr "audio_query") /\ key = "audio_data") ->
  data !! key = None ->
  Voice.iteration db ws cid (Json data) s w = (Raise (Exn KeyError key), w).
Proof.
  intros [[Ht ->] | [Ht ->]] Hkey;
    unfold Voice.iteration, bind at 1 2; simpl; rewrite Ht; simpl.
  - unfold bind, getitem. by rewrite Hkey.
  - unfold Voice.audio_text, Voice.subscript, bind, getitem.
    by rewrite Hkey.
Qed.

Lemma choice_iteration_missing ws cid data key l w :
  (data !! "type" = Some (JStr "language_switch") /\ key = "language")
  \/ (data !! "type" = Some (JStr "audio_query") /\ key = "audio_data")
  \/ (data !! "type" = Some (JStr "text_query") /\ key = "text") ->
  data !! key = None ->
  Choice.iteration db ws cid (Json data) l w = (Raise (Exn KeyError key), w).
Proof.
  intros [[Ht ->] | [[Ht ->] | [Ht ->]]] Hkey;
    unfold Choice.iteration, bind at 1 2; simpl;
    unfold getitem at 1; rewrite Ht; simpl.
  - unfold bind, getitem. by rewrite Hkey.
  - unfold Choice.audio_branch, Choice.subscript, bind, getitem.
    by rewrite Hkey.
  - unfold bind, getitem. by rewrite Hkey.
Qed.

(** X17.  In both backends a [language_switch] without a [language]
    field and an [audio_query] without an [audio_data] field end the
    connection: the loop is left by a [KeyError] on that field, the
    session is removed from the registry, and the client is sent
    nothing. *)
Theorem missing_field_closes b ws cid reg frames s data key more :
  final (connect db b ws cid reg frames) = Awaiting s ->
  (data !! "type" = Some (JStr "language_switch") /\ key = "language")
  \/ (data !! "type" = Some (JStr "audio_query") /\ key = "audio_data") ->
  data !! key = None ->
  let o := connect db b ws cid reg (frames ++ Json data :: more) in
  final o = Closed (Exn KeyError key)
  /\ registry o !! ws = None
  /\ outbox o = outbox (connect db b ws cid reg frames).
Proof.
  intros E Hcase Hkey. destruct b; unfold connect in *.
  - rewrite choice_endpoint_app.
    destruct (Choice.websocket_endpoint _ _ _ frames _) as [r w1].
    simpl in *. destruct r as [| e | l | e]; try done.
    unfold Choice.main_loop. simpl.
    rewrite (choice_iteration_missing _ _ _ key) by tauto. simpl.
    split; [done |]. split; [apply cleanup_removes | apply sent_cleanup].
  - rewrite voice_endpoint_app.
    destruct (Voice.websocket_endpoint _ _ _ frames _) as [r w1].
    simpl in *. subst r. unfold Voice.main_loop. simpl.
    rewrite (voice_iteration_missing _ _ _ key) by tauto. simpl.
    split; [done |]. split; [apply cleanup_removes | apply sent_cleanup].
Qed.

(** X18.  The Choice handler subscripts where the Voice handler uses
    [get]: a message without a [type] field, and a [text_query] without
    a [text] field, end a Choice connection with a [KeyError]; the Voice
    handler runs the [text_query] as a turn on the empty text. *)
Theorem choice_subscripts_voice_gets ws cid data more l s
    (w : Choice.world) (w' : Voice.world) :
  (data !! "type" = None ->
   Choice.main_loop db ws cid (Json data :: more) l w
   = (Closed (Exn KeyError "type"), cleanup ws w))
  /\ (data !! "type" = Some (JStr "text_query") -> data !! "text" = None ->
      Choice.main_loop db ws cid (Json data :: more) l w
      = (Closed (Exn KeyError "text"), cleanup ws w)
      /\ Voice.iteration db ws cid (Json data) s w'
         = Voice.turn db ws cid "" s w').
Proof.
  split.
  - intros Ht. unfold Choice.main_loop. simpl.
    by rewrite choice_iteration_untyped.
  - intros Ht Hx. split.
    + unfold Choice.main_loop. simpl.
      by rewrite (choice_iteration_missing _ _ _ "text") by tauto.
    + unfold Voice.iteration, bind at 1 2. simpl. rewrite Ht. simpl.
      unfold Voice.text_field, bind at 1. simpl. by rewrite Hx.
Qed.
End MissingFields.

(** ** Audio queries and language switches, step by step *)

Section Steps.
Import Py VectorStore Session Wire Registry Backend Inbound.
Context `{Chroma} `{ChatModel} `{ChoiceRag.LangChain} `{VoiceRag.Gemini}
        `{Runtime} `{Choice.Speech} `{Voice.Speech}.
Variables (db : chroma_db) (ws : conn) (cid : string).

(** X19.  The Voice handler runs an audio query as a turn on its
    transcript, after echoing the transcript to the client.  Whisper
    failing is no exception: when the model is not loaded, or raises,
    the transcript is the bracketed error text, and that text is
    answered and recorded like any question. *)
Theorem voice_audio_query_transcript data payload audio s
    (w : Voice.world) :
  data !! "type" = Some (JStr "audio_query") ->
  data !! "audio_data" = Some (JStr payload) ->
  b64decode payload = Ok audio ->
  write_scratch ws audio = None ->
  let heard := transcribe_audio audio in
  send_outcome (sent w) (UserMessage heard) = None ->
  Voice.iteration db ws cid (Json data) s w
  = Voice.turn db ws cid heard s
      (World (active_sessions w) (sent w ++ [UserMessage heard])
             (generated w) (close_code w))
  /\ (whisper_model = None -> heard = "[Error: Whisper model not loaded]")
  /\ (forall model e,
        whisper_model = Some model -> model audio = Raise e ->
        heard = "[Transcription error: " +:+ message e +:+ "]").
Proof.
  intros Ht Hdata Hdecode Hwrite heard Hsend. split; [| split].
  - unfold Voice.iteration, Voice.audio_text, Voice.subscript,
      Voice.get_field, Voice.decode_audio, getitem, bind, ret, lift,
      receive_json, option_raise, send_json.
    simpl. rewrite Ht. simpl. rewrite Hdata. simpl.
    rewrite Hdecode, Hwrite. simpl. fold heard. by rewrite Hsend.
  - unfold heard, transcribe_audio. by intros ->.
  - unfold heard, transcribe_audio. by intros model e -> ->.
Qed.

(** X20.  A language switch is not validated: whatever JSON value the
    message carries becomes the session's language, in the session and
    in its registry entry, before the acknowledgement is sent.  The
    acknowledgement has type "status" in the Voice backend and
    " status", with a leading space, in the Choice backend. *)
Theorem language_switch_step data language :
  data !! "type" = Some (JStr "language_switch") ->
  data !! "language" = Some language ->
  (forall s (w : Voice.world),
      let s1 := set_language language s in
      let sessions := alter (fun _ => s1) ws (active_sessions w) in
      Voice.iteration db ws cid (Json data) s w
      = match send_outcome (sent w) (Status "status" language) with
        | None =>
            (Ok s1, World sessions (sent w ++ [Status "status" language])
                          (generated w) (close_code w))
        | Some e =>
            (Raise e, World sessions (sent w) (generated w) (close_code w))
        end)
  /\ (forall l (w : Choice.world),
        let s1 := set_language language (Choice.session_data l) in
        let sessions := alter (fun _ => s1) ws (active_sessions w) in
        Choice.iteration db ws cid (Json data) l w
        = match send_outcome (sent w) (Status " status" language) with
          | None =>
              (Ok {| Choice.session_data := s1;
                     Choice.user_name_var := Choice.user_name_var l |},
               World sessions (sent w ++ [Status " status" language])
                     (generated w) (close_code w))
          | Some e =>
              (Raise e, World sessions (sent w) (generated w) (close_code w))
          end).
Proof.
  intros Ht Hl. split.
  - intros s w s1 sessions. unfold Voice.iteration, bind at 1 2. simpl.
    rewrite Ht. simpl. unfold bind at 1, getitem. rewrite Hl. simpl.
    unfold bind, commit, modify, send_json. simpl.
    by destruct (send_outcome _ _).
  - intros l w s1 sessions. unfold Choice.iteration, bind at 1 2. simpl.
    unfold getitem at 1. rewrite Ht. simpl.
    unfold bind at 1, getitem. rewrite Hl. simpl.
    unfold bind, commit, modify, send_json. simpl.
    by destruct (send_outcome _ _).
Qed.
End Steps.

(** ** The registry across connections *)

Section RegistryFacts.
Import Py VectorStore Session Wire Registry Backend NameDetection.
Context `{Chroma} `{ChatModel} `{ChoiceRag.LangChain} `{VoiceRag.Gemini}
        `{Runtime} `{Choice.Speech} `{Voice.Speech}.
Variable db : chroma_db.
Implicit Types (b : backend) (reg : gmap conn session).

Lemma keeps_register {P} ws s : keeps_others (P:=P) ws (register ws s).
Proof. intros w. unfold register, modify, others. simpl. apply delete_insert_eq. Qed.

Lemma keeps_close {P} ws code : keeps_others (P:=P) ws (close code).
Proof. by intros w. Qed.

Lemma choice_endpoint_others ws cid frames w r w' :
  Choice.websocket_endpoint db ws cid frames w = (r, w') ->
  others ws w' = others ws w.
Proof.
  unfold Choice.websocket_endpoint.
  destruct (create_rag_chain db cid) as [chain | e].
  - match goal with |- context [bind ?m ?k w] =>
      pose proof (keeps_bind ws m k (keeps_register ws _)
                    (fun _ => keeps_send_json ws _) w) as Hk;
      destruct (bind m k w) as [[u | e] w0] end; simpl in Hk.
    + intros E. apply serve_others in E; [congruence |].
      apply choice_keeps_iteration.
    + intros [= _ <-]. done.
  - destruct (kind e); try by intros [= _ <-].
    match goal with |- context [bind ?m ?k w] =>
      pose proof (keeps_bind ws m k (keeps_send_json ws _)
                    (fun _ => keeps_close ws _) w) as Hk;
      destruct (bind m k w) as [[u | e1] w0] end; simpl in Hk;
      by intros [= _ <-].
Qed.

Lemma voice_endpoint_others ws cid frames w r w' :
  Voice.websocket_endpoint db ws cid frames w = (r, w') ->
  others ws w' = others ws w.
Proof.
  unfold Voice.websocket_endpoint.
  destruct (create_rag_chain db cid) as [chain | e].
  - match goal with |- context [bind ?m ?k w] =>
      pose proof (keeps_bind ws m k (keeps_register ws _)
                    (fun _ => voice_keeps_respond ws _ _) w) as Hk;
      destruct (bind m k w) as [[u | e] w0] end; simpl in Hk.
    + intros E. apply serve_others in E; [congruence |].
      apply voice_keeps_iteration.
    + intros [= _ <-]. done.
  - destruct (kind e); try by intros [= _ <-].
    match goal with |- context [bind ?m ?k w] =>
      pose proof (keeps_bind ws m k (keeps_send_json ws _)
                    (fun _ => keeps_close ws _) w) as Hk;
      destruct (bind m k w) as [[u | e1] w0] end; simpl in Hk;
      by intros [= _ <-].
Qed.

(** X21.  A connection never touches the session of another one:
    however the handler of either backend ends, refused, failed, waiting
    or closed, and whatever frames it read, the registry entries of all
    other connections are what they were when it was accepted. *)
Theorem sessions_are_private b ws cid reg frames other :
  other <> ws ->
  registry (connect db b ws cid reg frames) !! other = reg !! other.
Proof.
  intros Hne.
  assert (Ho : delete ws (registry (connect db b ws cid reg frames))
               = delete ws reg).
  { destruct b; unfold connect.
    - destruct (Choice.websocket_endpoint _ _ _ _ _) as [r w'] eqn:E.
      by apply choice_endpoint_others in E.
    - destruct (Voice.websocket_endpoint _ _ _ _ _) as [r w'] eqn:E.
      by apply voice_endpoint_others in E. }
  apply (f_equal (fun m => m !! other)) in Ho.
  by rewrite !lookup_delete_ne in Ho.
Qed.

(** X22.  The Choice handler tests its local [user_name] also when the
    assignment above the test was skipped.  The local is never unbound
    there: the assignment is skipped only once the session holds a name,
    and the session's name was stored from that local. *)
Theorem choice_user_name_is_bound ws cid frames w l w' :
  Choice.websocket_endpoint db ws cid frames w = (Awaiting l, w') ->
  forall query_text,
    exists detected,
      (if unset (user_name (Choice.session_data l))
       then Some (detect_user_name query_text)
       else Choice.user_name_var l) = Some detected.
Proof.
  intros E query_text.
  apply choice_endpoint_active in E as (chain & w0 & _ & _ & _ & E);
    [| done | done].
  apply choice_main_loop_name in E as [Hbound _]; [| done].
  unfold unset.
  destruct (user_name (Choice.session_data l)) as [n |]; [| by eauto].
  destruct (Hbound n eq_refl) as [-> ->]. simpl. eauto.
Qed.
End RegistryFacts.

(** ** The registry entry of a waiting connection *)

Section Tracking.
Import Py VectorStore Session Wire Registry Backend NameDetection.
Context `{Chroma} `{ChatModel} `{ChoiceRag.LangChain} `{VoiceRag.Gemini}
        `{Runtime} `{Choice.Speech} `{Voice.Speech}.
Variables (db : chroma_db) (ws : conn) (cid : string).

Lemma serve_tracks {P L} (body : frame -> L -> M (world P) L)
    (I : L -> world P -> Prop) frames l w l' w' :
  (forall f l w l' w', body f l w = (Ok l', w') -> I l w -> I l' w') ->
  serve body ws frames l w = (Awaiting l', w') -> I l w -> I l' w'.
Proof.
  intros Hbody. revert l w.
  induction frames as [| f frames IH]; intros l w; simpl.
  - by intros [= <- <-].
  - destruct (body f l w) as [[l1 | e] w1] eqn:Eb; [| done].
    intros E Hl. eauto.
Qed.

Lemma lookup_commit (m : gmap conn session) s' :
  is_Some (m !! ws) -> alter (fun _ => s') ws m !! ws = Some s'.
Proof. intros [s0 E]. by rewrite lookup_alter_eq, E. Qed.

Lemma voice_turn_tracks q s w s' w' :
  Voice.turn db ws cid q s w = (Ok s', w') ->
  is_Some (active_sessions w !! ws) ->
  active_sessions w' !! ws = Some s'.
Proof.
  unfold Voice.turn. intros E Hw. repeat step_ok.
  match goal with E : try_except _ _ _ = _ |- _ =>
    apply voice_answer_sent in E as [_ Ea] end.
  match goal with E : Voice.respond _ _ _ = _ |- _ =>
    apply voice_respond_ok in E as (a & b & ->) end.
  simpl. rewrite Ea. simpl. apply lookup_commit.
  rewrite lookup_alter_eq. destruct Hw as [s0 ->]. by eexists.
Qed.

Lemma voice_iteration_tracks f s w s' w' :
  Voice.iteration db ws cid f s w = (Ok s', w') ->
  active_sessions w !! ws = Some s ->
  active_sessions w' !! ws = Some s'.
Proof.
  unfold Voice.iteration. intros E Hw. do 2 step_ok. step_ok.
  match goal with E : Voice.get_field _ _ _ = _ |- _ =>
    apply voice_get_field_ok in E as (-> & d & -> & ->) end.
  destruct (Voice.has_type _ "language_switch").
  { repeat step_ok.
    match goal with E : Voice.subscript _ _ _ = _ |- _ =>
      apply voice_subscript_ok in E as (-> & _) end.
    repeat step_ok. simpl. apply lookup_commit. by rewrite Hw. }
  destruct (Voice.has_type _ "text_query").
  { step_ok.
    match goal with E : Voice.text_field _ _ = _ |- _ =>
      apply voice_text_field_ok in E as -> end.
    apply voice_turn_tracks in E; [done | by rewrite Hw]. }
  destruct (Voice.has_type _ "audio_query").
  { step_ok.
    match goal with E : Voice.audio_text _ _ _ = _ |- _ =>
      unfold Voice.audio_text in E end.
    repeat step_ok.
    repeat match goal with
    | E : Voice.subscript _ _ _ = _ |- _ =>
        apply voice_subscript_ok in E as (-> & _)
    | E : Voice.decode_audio _ _ = _ |- _ =>
        apply voice_decode_audio_ok in E as ->
    end.
    repeat step_ok.
    match goal with E : Voice.turn _ _ _ _ _ _ = _ |- _ =>
      apply voice_turn_tracks in E; [done | by simpl; rewrite Hw] end. }
  repeat step_ok. done.
Qed.

Lemma choice_iteration_tracks f l w l' w' :
  Choice.iteration db ws cid f l w = (Ok l', w') ->
  active_sessions w !! ws = Some (Choice.session_data l) ->
  active_sessions w' !! ws = Some (Choice.session_data l').
Proof.
  unfold Choice.iteration. intros E Hw. do 3 step_ok.
  match goal with E : Choice.subscript _ _ _ = _ |- _ =>
    apply choice_subscript_ok in E as (-> & d & -> & Etype) end.
  destruct (is_str _ "language_switch").
  { repeat step_ok.
    match goal with E : Choice.subscript _ _ _ = _ |- _ =>
      apply choice_subscript_ok in E as (-> & _) end.
    repeat step_ok. simpl. apply lookup_commit. by rewrite Hw. }
  destruct (is_str _ "text_query").
  { repeat step_ok.
    match goal with E : Choice.subscript _ _ _ = _ |- _ =>
      apply choice_subscript_ok in E as (-> & _) end.
    by repeat step_ok. }
  destruct (is_str _ "audio_query"); [| by repeat step_ok].
  unfold Choice.audio_branch in E. repeat step_ok.
  repeat match goal with
  | E : Choice.subscript _ _ _ = _ |- _ =>
      apply choice_subscript_ok in E as (-> & _)
  | E : Choice.decode_audio _ _ = _ |- _ =>
      apply choice_decode_audio_ok in E as ->
  end.
  repeat step_ok.
  destruct (if unset (user_name (Choice.session_data l)) then _ else _)
    as [detected |]; [| done].
  repeat step_ok.
  match goal with E : with_generation _ _ = _ |- _ =>
    apply choice_answer_sent in E as [_ Ea] end.
  simpl. rewrite Ea. simpl. apply lookup_commit.
  rewrite lookup_alter_eq, Hw. by eexists.
Qed.

(** X23.  While a connection of either backend waits for its next
    message, the registry holds its session as the handler has it:
    name, language and history are those the next turn will use. *)
Theorem registry_holds_session b reg frames s :
  final (connect db b ws cid reg frames) = Awaiting s ->
  registry (connect db b ws cid reg frames) !! ws = Some s.
Proof.
  destruct b; unfold connect.
  - destruct (Choice.websocket_endpoint _ _ _ _ _) as [r w'] eqn:E. simpl.
    destruct r as [| e | l | e]; try done. intros [= <-].
    unfold Choice.websocket_endpoint in E.
    destruct (create_rag_chain db cid) as [chain | e];
      [| destruct (kind e); try done;
         by destruct (bind _ _ _) as [[u | e1] w0]].
    destruct (bind _ _ _) as [[u | e] w0] eqn:Eg; [| done].
    apply bind_ok in Eg as (u1 & w1 & Ereg & Esend).
    unfold register, modify in Ereg. injection Ereg as _ <-.
    apply send_json_ok in Esend as ->.
    apply (serve_tracks _
             (fun l w => active_sessions w !! ws
                         = Some (Choice.session_data l))) in E;
      [done | apply choice_iteration_tracks |].
    simpl. apply lookup_insert_eq.
  - destruct (Voice.websocket_endpoint _ _ _ _ _) as [r w'] eqn:E. simpl.
    intros ->. unfold Voice.websocket_endpoint in E.
    destruct (create_rag_chain db cid) as [chain | e];
      [| destruct (kind e); try done;
         by destruct (bind _ _ _) as [[u | e1] w0]].
    destruct (bind _ _ _) as [[u | e] w0] eqn:Eg; [| done].
    apply bind_ok in Eg as (u1 & w1 & Ereg & Esend).
    unfold register, modify in Ereg. injection Ereg as _ <-.
    apply voice_respond_ok in Esend as (a & u2 & ->).
    apply (serve_tracks _
             (fun s w => active_sessions w !! ws = Some s)) in E;
      [done | apply voice_iteration_tracks |].
    simpl. apply lookup_insert_eq.
Qed.
(** X24.  A Voice session without a name takes the name its next text
    query introduces: when [detect_user_name] finds a name in the
    stripped text, that name is the session's after the turn. *)
Theorem voice_captures_name reg frames s t n s' :
  final (connect db VoiceBot ws cid reg frames) = Awaiting s ->
  user_name s = None ->
  detect_user_name (Text.strip t) = Some n ->
  final (connect db VoiceBot ws cid reg (frames ++ [Inbound.text_query t]))
  = Awaiting s' ->
  user_name s' = Some n.
Proof.
  unfold connect. rewrite voice_endpoint_app.
  destruct (Voice.websocket_endpoint _ _ _ frames _) as [r w1].
  simpl. intros -> Hnone Hn. unfold Voice.main_loop. simpl.
  rewrite voice_iteration_text_query.
  destruct (Voice.turn _ _ _ _ s w1) as [[s2 | e] w2] eqn:Et; [| done].
  simpl. intros [= <-].
  apply voice_turn_ok in Et as (r & -> & _).
  cbn [user_name update_chat_history set_chat_history].
  unfold Voice.personalize. rewrite Hnone, Hn. simpl.
  by rewrite (detect_user_name_nonempty _ _ Hn).
Qed.
End Tracking.

(** ** What the handlers send *)

Section Emissions.
Import Py VectorStore Session Wire Registry Backend Outbox.
Context `{Chroma} `{ChatModel} `{ChoiceRag.LangChain} `{VoiceRag.Gemini}
        `{Runtime} `{Choice.Speech} `{Voice.Speech}.
Variables (db : chroma_db) (ws : conn) (cid : string).

Section Generic.
Context {P : Type} (allowed : out_msg -> bool).

Lemma emits_silent {A} (m : M (world P) A) :
  (forall w, sent (m w).2 = sent w) -> emits allowed m.
Proof. intros Hm w. exists []. by rewrite Hm, app_nil_r. Qed.

Lemma emits_ret {A} (a : A) : emits (P:=P) allowed (ret a).
Proof. by apply emits_silent. Qed.

Lemma emits_raise {A} e : emits (P:=P) (A:=A) allowed (raise e).
Proof. by apply emits_silent. Qed.

Lemma emits_lift {A} (r : result A) : emits (P:=P) allowed (lift r).
Proof. by apply emits_silent. Qed.

Lemma emits_modify (f : gmap conn session -> gmap conn session) :
  emits (P:=P) allowed (modify (with_sessions f)).
Proof. by apply emits_silent. Qed.

Lemma emits_close code : emits (P:=P) allowed (close code).
Proof. by apply emits_silent. Qed.

Lemma emits_with_generation {A} (m : M (list P) A) :
  emits allowed (with_generation m).
Proof.
  apply emits_silent. intros w. unfold with_generation.
  by destruct (m _).
Qed.

Lemma emits_getitem d key : emits allowed (getitem (S:=world P) d key).
Proof. apply emits_silent. intros w. unfold getitem. by destruct (d !! key). Qed.

Lemma emits_option_raise o : emits (P:=P) allowed (option_raise o).
Proof. apply emits_silent. intros w. by destruct o. Qed.

Lemma emits_receive_json f : emits (P:=P) allowed (receive_json f).
Proof. apply emits_silent. intros w. by destruct f. Qed.

Lemma emits_send_json m : allowed m = true -> emits (P:=P) allowed (send_json m).
Proof.
  intros Hm w. unfold send_json. destruct (send_outcome _ _).
  - exists []. by rewrite app_nil_r.
  - exists [m]. simpl. by rewrite Hm.
Qed.

Lemma emits_bind {A B} (m : M (world P) A) (k : A -> M (world P) B) :
  emits allowed m -> (forall a, emits allowed (k a)) ->
  emits allowed (bind m k).
Proof.
  intros Hm Hk w. unfold bind. destruct (Hm w) as (msgs & Es & Ha).
  destruct (m w) as [[a | e] w1]; simpl in Es.
  - destruct (Hk a w1) as (msgs' & Es' & Ha'). exists (msgs ++ msgs').
    rewrite Es', Es, app_assoc, forallb_app, Ha, Ha'. done.
  - by exists msgs.
Qed.

Lemma emits_try_except {A} (m : M (world P) A) h :
  emits allowed m -> (forall e, emits allowed (h e)) ->
  emits allowed (try_except m h).
Proof.
  intros Hm Hh w. unfold try_except. destruct (Hm w) as (msgs & Es & Ha).
  destruct (m w) as [[a | e] w1]; simpl in Es.
  - by exists msgs.
  - destruct (Hh e w1) as (msgs' & Es' & Ha'). exists (msgs ++ msgs').
    rewrite Es', Es, app_assoc, forallb_app, Ha, Ha'. done.
Qed.

Lemma serve_emits {L} (body : frame -> L -> M (world P) L) frames l w :
  (forall f l, emits allowed (body f l)) ->
  exists msgs,
    sent (serve body ws frames l w).2 = sent w ++ msgs
    /\ forallb allowed msgs = true.
Proof.
  intros Hbody. revert l w.
  induction frames as [| f frames IH]; intros l w; simpl.
  - exists []. by rewrite app_nil_r.
  - destruct (Hbody f l w) as (msgs & Es & Ha).
    destruct (body f l w) as [[l1 | e] w1]; simpl in Es.
    + destruct (IH l1 w1) as (msgs' & Es' & Ha'). exists (msgs ++ msgs').
      rewrite Es', Es, app_assoc, forallb_app, Ha, Ha'. done.
    + exists msgs. simpl. by rewrite sent_cleanup.
Qed.
End Generic.

Ltac emits_steps :=
  repeat first
    [ apply emits_ret | apply emits_raise | apply emits_lift
    | apply emits_modify | apply emits_close | apply emits_with_generation
    | apply emits_getitem | apply emits_option_raise
    | apply emits_receive_json
    | apply emits_send_json; reflexivity
    | apply emits_try_except; [| intros ?]
    | apply emits_bind; [| intros ?] ].

Lemma voice_emits_respond t lang :
  emits (format VoiceBot) (Voice.respond t lang).
Proof.
  unfold Voice.respond, Voice.generate_speech_audio.
  destruct (Voice.generate_gtts_bytes t lang); by apply emits_send_json.
Qed.

Lemma voice_emits_iteration f s :
  emits (format VoiceBot) (Voice.iteration db ws cid f s).
Proof.
  unfold Voice.iteration.
  apply emits_bind; [apply emits_receive_json | intros data].
  apply emits_bind; [destruct data; emits_steps | intros type].
  repeat match goal with |- emits _ (if ?b then _ else _) => destruct b end;
    unfold Voice.text_field, Voice.audio_text, Voice.turn, Voice.subscript,
      Voice.get_field, Voice.decode_audio, commit;
    repeat first
      [ apply voice_emits_respond
      | match goal with |- emits _ (match ?x with _ => _ end) =>
          destruct x end
      | progress emits_steps ].
Qed.

Lemma choice_emits_iteration f l :
  emits (format ChoiceBot) (Choice.iteration db ws cid f l).
Proof.
  unfold Choice.iteration.
  apply emits_bind; [apply emits_receive_json | intros data].
  apply emits_bind; [destruct data; emits_steps | intros type].
  repeat match goal with |- emits _ (if ?b then _ else _) => destruct b end;
    unfold Choice.audio_branch, Choice.subscript, Choice.decode_audio, commit;
    repeat first
      [ match goal with |- emits _ (match ?x with _ => _ end) =>
          destruct x end
      | progress emits_steps ].
Qed.

(** X25.  Every message a handler sends has the shape of its backend.
    A response of the Voice backend carries its audio inline and no
    URL; a response of the Choice backend carries a URL and no inline
    audio.  An acknowledgement has type "status" in the Voice backend
    and " status" in the Choice backend. *)
Theorem outbox_format b reg frames :
  forallb (format b) (outbox (connect db b ws cid reg frames)) = true.
Proof.
  destruct b; unfold connect.
  - unfold Choice.websocket_endpoint.
    destruct (create_rag_chain db cid) as [chain | e].
    + match goal with |- context [bind ?m ?k ?w] =>
        assert (Hg : emits (format ChoiceBot) (bind m k))
          by (unfold register; emits_steps);
        destruct (Hg w) as (msgs & Es & Ha);
        destruct (bind m k w) as [[u | e] w0] end; simpl in Es.
      * unfold Choice.main_loop.
        destruct (serve_emits (format ChoiceBot)
                    (Choice.iteration db ws cid) frames
                    {| Choice.session_data := Choice.new_session chain;
                       Choice.user_name_var := None |} w0
                    (choice_emits_iteration)) as (msgs' & Es' & Ha').
        destruct (serve _ _ _ _ _) as [r w']. simpl in *.
        by rewrite Es', Es, forallb_app, Ha, Ha'.
      * simpl. by rewrite Es.
    + destruct (kind e); try done.
      match goal with |- context [bind ?m ?k ?w] =>
        assert (Hg : emits (format ChoiceBot) (bind m k))
          by emits_steps;
        destruct (Hg w) as (msgs & Es & Ha);
        destruct (bind m k w) as [[u | e1] w0] end; simpl in *;
        by rewrite Es.
  - unfold Voice.websocket_endpoint.
    destruct (create_rag_chain db cid) as [chain | e].
    + match goal with |- context [bind ?m ?k ?w] =>
        assert (Hg : emits (format VoiceBot) (bind m k))
          by (unfold register;
              apply emits_bind; [apply emits_modify | intros ?];
              apply voice_emits_respond);
        destruct (Hg w) as (msgs & Es & Ha);
        destruct (bind m k w) as [[u | e] w0] end; simpl in Es.
      * unfold Voice.main_loop.
        destruct (serve_emits (format VoiceBot)
                    (Voice.iteration db ws cid) frames
                    (Voice.new_session chain) w0
                    (voice_emits_iteration)) as (msgs' & Es' & Ha').
        destruct (serve _ _ _ _ _) as [r w']. simpl in *.
        by rewrite Es', Es, forallb_app, Ha, Ha'.
      * simpl. by rewrite Es.
    + destruct (kind e); try done.
      match goal with |- context [bind ?m ?k ?w] =>
        assert (Hg : emits (format VoiceBot) (bind m k))
          by emits_steps;
        destruct (Hg w) as (msgs & Es & Ha);
        destruct (bind m k w) as [[u | e1] w0] end; simpl in *;
        by rewrite Es.
Qed.
End Emissions.

(** ** When generation is down *)

Section GenerationDown.
Import Py VectorStore Session Wire Registry Backend Outbox History.
Context `{Chroma} `{ChatModel} `{ChoiceRag.LangChain} `{VoiceRag.Gemini}
        `{Runtime} `{Choice.Speech} `{Voice.Speech}.
Variables (db : chroma_db) (ws : conn) (cid : string).

(** X26.  With generation failing, the Voice backend still answers
    every query, with one of its three fixed replies: no documents for
    the tenant, nothing relevant found, or the apology for a failed
    generation. *)
Theorem voice_generation_down q s chain calls :
  (forall prompt, exists e,
      VoiceRag.generate_content_async prompt = Raise e) ->
  exists reply calls',
    VoiceRag.process_query db q s cid chain calls = (Ok reply, calls')
    /\ (reply = VoiceRag.no_documents_reply
        \/ reply = VoiceRag.not_found_reply
        \/ reply = VoiceRag.failure_reply).
Proof.
  intros Hdown. unfold VoiceRag.process_query, try_except.
  destruct (get_vector_retriever db cid 4) as [retriever |];
    [| by eauto].
  unfold bind, lift, VoiceRag.call_gemini, ret.
  destruct (get_relevant_documents db retriever q) as [[| d docs] | e];
    [by eauto 6 | | by eauto 6].
  destruct (Hdown (VoiceRag.full_prompt (d :: docs) q)) as [e ->].
  by eauto 6.
Qed.

Section Fails.
Context {P A B : Type} (allowed : out_msg -> bool).

(** A step that always raises, after a quiet start, is quiet. *)
Lemma emits_bind_fails (m : M (world P) A) (k : A -> M (world P) B) :
  emits allowed m -> (forall w a w', m w <> (Ok a, w')) ->
  emits allowed (bind m k).
Proof.
  intros Hm Hf w. unfold bind. destruct (Hm w) as (msgs & Es & Ha).
  pose proof (Hf w) as Hw.
  destruct (m w) as [[a | e] w1]; [by destruct (Hw a w1) | by exists msgs].
Qed.

Lemma bind_fails_l (m : M (world P) A) (k : A -> M (world P) B) w b w' :
  (forall w a w', m w <> (Ok a, w')) -> bind m k w <> (Ok b, w').
Proof.
  intros Hf. unfold bind. pose proof (Hf w) as Hw.
  destruct (m w) as [[a | e] w1]; [by destruct (Hw a w1) | done].
Qed.

Lemma bind_fails_r (m : M (world P) A) (k : A -> M (world P) B) w b w' :
  (forall a w b w', k a w <> (Ok b, w')) -> bind m k w <> (Ok b, w').
Proof.
  intros Hf. unfold bind. destruct (m w) as [[a | e] w1]; [apply Hf | done].
Qed.
End Fails.

Section ChoiceDown.
Hypothesis Hdown : forall inputs, exists e, ChoiceRag.llm_invoke inputs = Raise e.

Lemma choice_process_query_down q s chain calls reply calls' :
  ChoiceRag.process_query db q s cid chain calls <> (Ok reply, calls').
Proof.
  unfold ChoiceRag.process_query, ChoiceRag.rag_chain_invoke, bind, lift.
  destruct (ChoiceRag.language_instruction _); [| done].
  destruct (ChoiceRag.retriever_input _); [| done].
  destruct (get_relevant_documents _ _ _); [| done].
  match goal with |- context [ChoiceRag.llm_invoke ?i] =>
    destruct (Hdown i) as [e ->] end.
  done.
Qed.

Lemma choice_answer_down q s chain (w : Choice.world) reply w' :
  with_generation (ChoiceRag.process_query db q s cid chain) w
  <> (Ok reply, w').
Proof.
  unfold with_generation.
  destruct (ChoiceRag.process_query _ _ _ _ _ _) as [[r | e] calls] eqn:E;
    [by apply choice_process_query_down in E | done].
Qed.

Lemma choice_audio_branch_down data l w :
  (forall l' w', Choice.audio_branch db ws cid data l w <> (Ok l', w'))
  /\ emits is_echo (Choice.audio_branch db ws cid data l).
Proof.
  unfold Choice.audio_branch. split.
  - intros l' w'. repeat (apply bind_fails_r; intros).
    destruct (if unset _ then _ else _); [| done].
    apply bind_fails_r. intros. apply bind_fails_l. intros.
    apply choice_answer_down.
  - unfold Choice.subscript, Choice.decode_audio, commit.
    repeat first
      [ apply emits_bind_fails;
          [apply emits_with_generation | intros; apply choice_answer_down]
      | apply emits_ret | apply emits_raise | apply emits_lift
      | apply emits_modify | apply emits_getitem | apply emits_option_raise
      | apply emits_send_json; reflexivity
      | match goal with |- emits _ (match ?x with _ => _ end) =>
          destruct x end
      | apply emits_bind; [| intros ?] ].
Qed.

(** X27.  With generation failing, an [audio_query] ends a connection
    of the Choice backend: the loop is left by an exception and the
    session is removed from the registry.  The client gets no response
    and no error message, at most the echo of the transcript. *)
Theorem choice_generation_down reg frames s data more :
  final (connect db ChoiceBot ws cid reg frames) = Awaiting s ->
  data !! "type" = Some (JStr "audio_query") ->
  let before := connect db ChoiceBot ws cid reg frames in
  let after :=
    connect db ChoiceBot ws cid reg (frames ++ Json data :: more) in
  (exists e, final after = Closed e)
  /\ registry after !! ws = None
  /\ exists msgs,
       outbox after = outbox before ++ msgs
       /\ forallb is_echo msgs = true.
Proof.
  intros E Ht before after. subst before after. unfold connect in *.
  rewrite choice_endpoint_app.
  destruct (Choice.websocket_endpoint _ _ _ frames _) as [r w1].
  simpl in *. destruct r as [| e | l | e]; try done.
  unfold Choice.main_loop. simpl.
  assert (Ei : Choice.iteration db ws cid (Json data) l w1
               = Choice.audio_branch db ws cid (Some data) l w1).
  { unfold Choice.iteration, bind at 1 2. simpl.
    unfold getitem at 1. by rewrite Ht. }
  rewrite Ei.
  destruct (choice_audio_branch_down (Some data) l w1) as [Hf He].
  destruct (He w1) as (msgs & Es & Ha).
  destruct (Choice.audio_branch _ _ _ _ _ _) as [[l' | e] w2];
    [by destruct (Hf l' w2) |].
  simpl in *. split; [by eauto |]. split; [apply cleanup_removes |].
  exists msgs. by rewrite sent_cleanup.
Qed.
End ChoiceDown.
End GenerationDown.

(** ** The further properties on examples *)

Section TextExamples.
Import Text Str Intent NameDetection VoiceAudio.

(** "alEX" after a shouted introduction. *)
Lemma detect_user_name_introduction_alex :
  detect_user_name ("My Name IS" +:+ "  " +:+ "alEX" +:+ ", hello")
  = Some "Alex".
Proof.
  apply (detect_user_name_introduction "My Name IS" "  " "alEX" ", hello");
    reflexivity.
Defined.

Lemma detect_user_name_capitalized_bob :
  capitalized "Bob" = true /\ nonempty "Bob" = true.
Proof.
  apply (detect_user_name_capitalized "well, my name is  boB.").
  reflexivity.
Defined.

(** "Book" is found inside "FaceBook". *)
Lemma detect_intent_embedded_facebook :
  (exists intent',
      detect_intent (Some ("Face" +:+ "Book" +:+ " page")) = Some intent'
      /\ ("book_visit" = "book_visit" -> intent' = "book_visit"))
  /\ detect_intent (Some (lower "Book")) = Some "book_visit"
  /\ detect_intent None = None.
Proof. apply detect_intent_embedded. reflexivity. Defined.

Lemma sub_links_link_plan :
  sub_links 0 "see [the plan](http://x.y/p) now" = "see the plan now".
Proof.
  exact (sub_links_link "see " "the plan" "http://x.y/p" " now"
           eq_refl eq_refl eq_refl eq_refl eq_refl).
Defined.
End TextExamples.

Section FileExamples.
Import Py VectorStore Ingestion.
#[local] Existing Instances Demo.chroma Files.file_system.

(** A shouted suffix, and a file that is all suffix. *)
Lemma get_document_loader_suffix_report :
  get_document_loader Posix "docs/Report.PDF"
  = Some (PyPDFLoader "docs/Report.PDF")
  /\ get_document_loader Nt "C:/data/.txt" = None.
Proof.
  split.
  - exact (proj1 (get_document_loader_suffix Posix "docs/Report" "PDF"
                    eq_refl) eq_refl).
  - exact (get_document_loader_suffix Nt "C:/data/" "txt" eq_refl).
Defined.

(** The PDF whose [load()] raises is passed over; the subdirectory
    named like a PDF ends the loop. *)
Lemma load_directory_skips_broken_pdf :
  load_directory "docs" ["Notes.TXT"; "plan.xlsx"; "broken.pdf"; ".txt"] []
  = load_directory "docs" ["Notes.TXT"; "plan.xlsx"; ".txt"] []
  /\ load_directory "docs" ["Notes.TXT"; "plan.xlsx"; ".txt"] []
     = Ok [Files.notes]
  /\ load_directory "mixed" ["Notes.TXT"; "scans.pdf"] []
     = Raise Files.not_a_file.
Proof.
  split; [| split; [reflexivity |]].
  - apply (proj1 (load_directory_skips "docs" ["Notes.TXT"; "plan.xlsx"]
                    "broken.pdf" [".txt"] [])).
    right. exists (PyPDFLoader "docs/broken.pdf"), (Exn OtherError "cannot read").
    repeat split; reflexivity.
  - apply (proj2 (load_directory_skips "mixed" ["Notes.TXT"] "scans.pdf"
                    [] [])
             (PyPDFLoader "mixed/scans.pdf") Files.not_a_file [Files.notes]);
      reflexivity.
Defined.

(** A subdirectory named like a PDF: the request fails unhandled and
    nothing is stored. *)
Lemma http_ingest_data_all_or_nothing_mixed :
  (forall other, other <> "acme" ->
     Demo.db !! collection_name other = Demo.db !! collection_name other)
  /\ isdir "mixed" = true /\ Demo.db = Demo.db
  /\ (listdir "mixed" = Raise Files.not_a_file
      \/ exists names name loader,
           listdir "mixed" = Ok names
           /\ name ∈ names
           /\ get_document_loader os (path_join "mixed" name) = Some loader
           /\ loader_init loader = Some Files.not_a_file).
Proof. exact (http_ingest_data_all_or_nothing "acme" "mixed" Demo.db). Defined.

Lemma http_ingest_data_nothing_to_load_empty :
  http_ingest_data "acme" "empty" Demo.db = (Ok ingestion_failed, Demo.db).
Proof.
  apply (http_ingest_data_nothing_to_load "acme" "empty" [] Demo.db);
    [reflexivity | reflexivity |].
  intros name Hin. by apply elem_of_nil in Hin.
Defined.

(** The dot is in the directory's name. *)
Lemma get_document_loader_no_suffix_readme :
  get_document_loader Posix "docs.v1/README" = None.
Proof. apply get_document_loader_no_suffix. reflexivity. Defined.
End FileExamples.

Section ConnectionExamples.
Import Py VectorStore Session Wire History Registry Backend Inbound Scenario.
#[local] Existing Instances
  Demo.chroma Demo.chat_model Demo.lang_chain Demo.gemini Demo.runtime
  Demo.choice_speech Demo.voice_speech.

(** Nothing was ingested for "globex". *)
Lemma unknown_tenant_rejected_globex :
  let refusal :=
    Error "Could not initialize retriever for client globex. Has data been ingested?" in
  Voice.websocket_endpoint Demo.db 7 "globex" six_turns Demo.empty_world
  = (Rejected, World ∅ [refusal] [] (Some 1008))
  /\ Choice.websocket_endpoint Demo.db 7 "globex" six_turns Demo.empty_world
     = (Rejected, World ∅ [refusal] [] (Some 1008)).
Proof.
  apply (unknown_tenant_rejected Demo.db 7 "globex" six_turns
           Demo.empty_world Demo.empty_world); reflexivity.
Defined.

(** A language switch that names no language. *)
Lemma missing_field_closes_switch :
  let data : gmap string jval := {[ "type" := JStr "language_switch" ]} in
  let o := connect Demo.db VoiceBot 7 "acme" busy
             (introduces_alex ++ Json data :: six_turns) in
  final o = Closed (Exn KeyError "language")
  /\ registry o !! 7 = None
  /\ outbox o = outbox (connect Demo.db VoiceBot 7 "acme" busy introduces_alex).
Proof.
  apply (missing_field_closes Demo.db VoiceBot 7 "acme" busy introduces_alex
           (awaited (connect Demo.db VoiceBot 7 "acme" busy introduces_alex))).
  - vm_compute. reflexivity.
  - left. split; vm_compute; reflexivity.
  - vm_compute. reflexivity.
Defined.

(** The language becomes the number 5. *)
Lemma language_switch_step_five :
  let data : gmap string jval :=
    {[ "type" := JStr "language_switch"; "language" := JNum 5 ]} in
  Voice.iteration Demo.db 7 "acme" (Json data) Demo.session0
    (World busy [] [] None)
  = (Ok (set_language (JNum 5) Demo.session0),
     World (alter (fun _ => set_language (JNum 5) Demo.session0) 7 busy)
           [Status "status" (JNum 5)] [] None).
Proof.
  intros data.
  refine (proj1 (language_switch_step Demo.db 7 "acme" data (JNum 5) _ _)
            Demo.session0 (World busy [] [] None));
    vm_compute; reflexivity.
Defined.

(** Connection 3 is not disturbed by connection 7. *)
Lemma sessions_are_private_busy :
  registry (connect Demo.db ChoiceBot 7 "acme" busy
              (says_alex_then_sam ++ [Disconnect])) !! 3
  = busy !! 3.
Proof. apply sessions_are_private. discriminate. Defined.

(** After "my name is alex" the local holds what the session holds. *)
Lemma choice_user_name_is_bound_alex :
  let run :=
    Choice.websocket_endpoint Demo.db 7 "acme" says_alex_then_sam
      (World busy [] [] None) in
  let l :=
    match run.1 with
    | Awaiting l => l
    | _ => {| Choice.session_data := Demo.session0;
              Choice.user_name_var := None |}
    end in
  exists detected,
    (if unset (user_name (Choice.session_data l))
     then Some (NameDetection.detect_user_name "my name is Sam")
     else Choice.user_name_var l) = Some detected.
Proof.
  intros run l.
  apply (choice_user_name_is_bound Demo.db 7 "acme" says_alex_then_sam
           (World busy [] [] None) l run.2).
  vm_compute. reflexivity.
Defined.

Lemma registry_holds_session_alex :
  let o := connect Demo.db VoiceBot 7 "acme" busy introduces_alex in
  registry o !! 7 = Some (awaited o) /\ user_name (awaited o) = Some "Alex".
Proof.
  split; [| vm_compute; reflexivity].
  apply registry_holds_session. vm_compute. reflexivity.
Defined.
(** "Hello, my name is Alex" names a nameless session. *)
Lemma voice_captures_name_alex :
  user_name (awaited (connect Demo.db VoiceBot 7 "acme" busy
                        ([] ++ [text_query "Hello, my name is Alex"])))
  = Some "Alex".
Proof.
  apply (voice_captures_name Demo.db 7 "acme" busy [] Demo.session0
           "Hello, my name is Alex" "Alex"); vm_compute; reflexivity.
Defined.
End ConnectionExamples.

Section OutageExamples.
Import Py VectorStore Session Wire History Registry Backend Inbound Scenario
  Outbox.
#[local] Existing Instances
  Demo.chroma Demo.chat_model Outage.lang_chain Outage.gemini Outage.runtime
  Demo.choice_speech Demo.voice_speech.

(** Whisper did not load: the error text is the question. *)
Lemma voice_audio_query_transcript_unheard :
  let heard := "[Error: Whisper model not loaded]" in
  Voice.iteration Demo.db 7 "acme" (audio_query "hello") Demo.session0
    (World busy [] [] None)
  = Voice.turn Demo.db 7 "acme" heard Demo.session0
      (World busy [UserMessage heard] [] None).
Proof.
  intros heard.
  refine (proj1 (voice_audio_query_transcript Demo.db 7 "acme"
                   (<["type" := JStr "audio_query"]>
                      (<["audio_data" := JStr "hello"]> ∅))
                   "hello" (list_byte_of_string "hello") Demo.session0
                   (World busy [] [] None) _ _ _ _ _));
    vm_compute; reflexivity.
Defined.

Lemma voice_generation_down_hours :
  exists reply calls',
    VoiceRag.process_query Demo.db "What are your hours?" Demo.session0
      "acme" Demo.chain [] = (Ok reply, calls')
    /\ (reply = VoiceRag.no_documents_reply
        \/ reply = VoiceRag.not_found_reply
        \/ reply = VoiceRag.failure_reply).
Proof.
  apply voice_generation_down. intros prompt. eexists. reflexivity.
Defined.

Lemma choice_generation_down_hello :
  let data : gmap string jval :=
    <["type" := JStr "audio_query"]> (<["audio_data" := JStr "hello"]> ∅) in
  let before := connect Demo.db ChoiceBot 7 "acme" busy [] in
  let after := connect Demo.db ChoiceBot 7 "acme" busy (Json data :: six_turns) in
  (exists e, final after = Closed e)
  /\ registry after !! 7 = None
  /\ exists msgs,
       outbox after = outbox before ++ msgs
       /\ forallb is_echo msgs = true.
Proof.
  intros data.
  apply (choice_generation_down Demo.db 7 "acme"
           ltac:(intros inputs; eexists; reflexivity)
           busy [] Demo.session0 data six_turns).
  - vm_compute. reflexivity.
  - vm_compute. reflexivity.
Defined.
End OutageExamples.
